(** * The wyerd.net service worker ([sw.js]): failover forwarding of API requests

    A shallow embedding of [sw.js] and the properties of its behaviour.

    The worker intercepts every request of the page.  A request whose path
    starts with [/api/] is handed to [handleApiRequest], which tries an
    ordered list of backends one after the other and answers with the first
    response it manages to build, or with a synthesized 503; every other
    request goes to the network untouched.  On activation the worker deletes
    the caches of older versions and claims the open pages.

    Conventions of the embedding.
    - JavaScript strings are [string]s (bytes; text is thought of as UTF-8).
    - An [await] that may reject, and a constructor that may throw, has a
      [result]: [Ok v] or [Throw e].
    - The functions of the platform that the worker calls ([Headers],
      [Request], [Response], [fetch], [JSON.stringify], [Promise.all], the
      cache storage) are embedded after their standards (WHATWG Fetch,
      ECMAScript, Service Workers), as far as the worker can observe them:
      the exceptions they throw and the values they build.  What the network
      answers, how a URL string is parsed and what the clock says are
      parameters.
    - [console.log] calls are left out: they change nothing that the page or
      a backend can see. *)

From Stdlib Require Import ZArith Ascii String List Bool Lia.
From stdpp Require Import base strings gmap list.

Local Open Scope Z_scope.

(** ** Values that settle: the result of an [await] or of a constructor *)

Inductive result (E A : Type) : Type :=
| Ok (a : A)
| Throw (e : E).
Arguments Ok {E A} a.
Arguments Throw {E A} e.

(** An exception object: [TypeError], [RangeError], [DOMException], ...
    The worker reads only [error.message]. *)
Record JsError : Type := mkError {
  errorName : string;
  message : string
}.

(** ** Strings *)

(** [s.startsWith(p)] *)
Fixpoint startsWith (s p : string) : bool :=
  match p with
  | EmptyString => true
  | String c p' =>
      match s with
      | EmptyString => false
      | String d s' => if Ascii.eqb c d then startsWith s' p' else false
      end
  end.

(** [s.includes(sub)]: [sub] occurs somewhere in [s]. *)
Fixpoint includes (s sub : string) : bool :=
  startsWith s sub ||
  match s with
  | EmptyString => false
  | String _ s' => includes s' sub
  end.

(** Byte-lowercasing, the normal form of a header name. *)
Definition lowerAscii (c : ascii) : ascii :=
  let n := N_of_ascii c in
  if ((65 <=? n) && (n <=? 90))%N then ascii_of_N (n + 32) else c.

Fixpoint toLowerCase (s : string) : string :=
  match s with
  | EmptyString => EmptyString
  | String c s' => String (lowerAscii c) (toLowerCase s')
  end.

(** ** [Headers] *)

(** A [Headers] object, seen through [get], [set], [delete] and [entries]:
    a finite map from byte-lowercased names to (combined) values. *)
Abbreviation Headers := (gmap string string).

(** A map is a [Headers] object when its names are in normal form. *)
Definition headersNormal (h : Headers) : Prop :=
  ∀ k v, h !! k = Some v → toLowerCase k = k.

Definition Headers_get (h : Headers) (name : string) : option string :=
  h !! toLowerCase name.

Definition Headers_set (h : Headers) (name value : string) : Headers :=
  <[toLowerCase name := value]> h.

Definition Headers_delete (h : Headers) (name : string) : Headers :=
  delete (toLowerCase name) h.

(** [h.entries()]: every name once, with its value.  (The platform yields
    them sorted by name; the worker only [set]s each of them on a fresh
    object, where the order does not show.) *)
Definition Headers_entries (h : Headers) : list (string * string) :=
  map_to_list h.

(** The header guard of an object: what [append] silently refuses. *)
Inductive Guard : Type := GuardNone | GuardRequest | GuardResponse.

(** ** JSON *)

#[local] Set Warnings "-register-all".

Inductive json : Type :=
| JString (s : string)
| JArray (items : list json)
| JObject (members : list (string * json)).

Definition hexDigit (n : N) : ascii :=
  ascii_of_N (if (n <? 10)%N then 48 + n else 87 + n).

(** One character of a quoted JSON string (QuoteJSONString). *)
Definition escapeChar (c : ascii) : string :=
  let n := N_of_ascii c in
  if (n =? 34)%N then String "\" (String "034" EmptyString)
  else if (n =? 92)%N then String "\" (String "\" EmptyString)
  else if (n =? 8)%N then String "\" (String "b" EmptyString)
  else if (n =? 12)%N then String "\" (String "f" EmptyString)
  else if (n =? 10)%N then String "\" (String "n" EmptyString)
  else if (n =? 13)%N then String "\" (String "r" EmptyString)
  else if (n =? 9)%N then String "\" (String "t" EmptyString)
  else if (n <? 32)%N then
    String "\" (String "u" (String "0" (String "0"
      (String (hexDigit (n / 16)) (String (hexDigit (n mod 16)) EmptyString)))))
  else String c EmptyString.

Fixpoint escapeString (s : string) : string :=
  match s with
  | EmptyString => EmptyString
  | String c s' => escapeChar c +:+ escapeString s'
  end.

Definition dquote : string := String "034" EmptyString.

Definition quoteJSONString (s : string) : string :=
  dquote +:+ escapeString s +:+ dquote.

(** [xs.join(",")] *)
Fixpoint joinComma (xs : list string) : string :=
  match xs with
  | [] => EmptyString
  | [x] => x
  | x :: rest => x +:+ "," +:+ joinComma rest
  end.

(** [JSON.stringify(v)], without indentation. *)
Fixpoint JSON_stringify (v : json) : string :=
  match v with
  | JString s => quoteJSONString s
  | JArray items => "[" +:+ joinComma (map JSON_stringify items) +:+ "]"
  | JObject members =>
      "{" +:+
      joinComma (map (λ kv, quoteJSONString kv.1 +:+ ":" +:+ JSON_stringify kv.2)
                     members) +:+
      "}"
  end.

(** The value of a member of an object. *)
Definition member (v : json) (key : string) : option json :=
  match v with
  | JObject members => snd <$> List.find (λ kv, bool_decide (kv.1 = key)) members
  | _ => None
  end.

(** *** Reading back what [JSON.stringify] writes

    [JSON.parse] on texts without white space, whose values are strings,
    arrays and objects: the texts that the worker writes. *)

Definition hexValue (c : ascii) : option N :=
  let n := N_of_ascii c in
  if ((48 <=? n) && (n <=? 57))%N then Some (n - 48)%N
  else if ((97 <=? n) && (n <=? 102))%N then Some (n - 87)%N
  else if ((65 <=? n) && (n <=? 70))%N then Some (n - 55)%N
  else None.

(** The character that a backslash and [e] stand for. *)
Definition unescape (e : ascii) : option ascii :=
  let n := N_of_ascii e in
  if (n =? 34)%N then Some e
  else if (n =? 92)%N then Some e
  else if (n =? 47)%N then Some e
  else if (n =? 98)%N then Some (ascii_of_N 8)
  else if (n =? 102)%N then Some (ascii_of_N 12)
  else if (n =? 110)%N then Some (ascii_of_N 10)
  else if (n =? 114)%N then Some (ascii_of_N 13)
  else if (n =? 116)%N then Some (ascii_of_N 9)
  else None.

Definition consChar {A} (c : ascii) (r : option (string * A)) : option (string * A) :=
  match r with
  | Some (t, rest) => Some (String c t, rest)
  | None => None
  end.

(** The characters of a string up to its closing quote, and what follows
    the quote.  An escape [\u] is read when it names a byte. *)
Fixpoint parseChars (s : string) : option (string * string) :=
  match s with
  | EmptyString => None
  | String c rest =>
      if Ascii.eqb c "034" then Some (EmptyString, rest)
      else if Ascii.eqb c "\" then
        match rest with
        | EmptyString => None
        | String e rest' =>
            if Ascii.eqb e "u" then
              match rest' with
              | String a (String b (String h (String l rest''))) =>
                  match hexValue a, hexValue b, hexValue h, hexValue l with
                  | Some 0%N, Some 0%N, Some x, Some y =>
                      consChar (ascii_of_N (16 * x + y)) (parseChars rest'')
                  | _, _, _, _ => None
                  end
              | _ => None
              end
            else
              match unescape e with
              | Some c' => consChar c' (parseChars rest')
              | None => None
              end
        end
      else if (N_of_ascii c <? 32)%N then None
      else consChar c (parseChars rest)
  end.

Definition consItem {A} (v : A) (r : option (list A * string)) : option (list A * string) :=
  match r with
  | Some (vs, rest) => Some (v :: vs, rest)
  | None => None
  end.

(** The items of an array after the first bracket, read with [parseValue],
    up to the closing bracket. *)
Fixpoint parseItems (parseValue : string → option (json * string)) (fuel : nat)
    (s : string) : option (list json * string) :=
  match fuel with
  | O => None
  | S fuel' =>
      match parseValue s with
      | Some (v, String c rest) =>
          if Ascii.eqb c "," then consItem v (parseItems parseValue fuel' rest)
          else if Ascii.eqb c "]" then Some ([v], rest)
          else None
      | _ => None
      end
  end.

(** The members of an object after the first brace, up to the closing
    brace. *)
Fixpoint parseMembers (parseValue : string → option (json * string)) (fuel : nat)
    (s : string) : option (list (string * json) * string) :=
  match fuel with
  | O => None
  | S fuel' =>
      match s with
      | String q rest =>
          if Ascii.eqb q "034" then
            match parseChars rest with
            | Some (key, String colon rest') =>
                if Ascii.eqb colon ":" then
                  match parseValue rest' with
                  | Some (v, String c rest'') =>
                      if Ascii.eqb c ","
                      then consItem (key, v) (parseMembers parseValue fuel' rest'')
                      else if Ascii.eqb c "}" then Some ([(key, v)], rest'')
                      else None
                  | _ => None
                  end
                else None
            | _ => None
            end
          else None
      | EmptyString => None
      end
  end.

Definition mapValue {A B} (f : A → B) (r : option (A * string)) : option (B * string) :=
  match r with
  | Some (a, rest) => Some (f a, rest)
  | None => None
  end.

(** One value at the head of [s], and what follows it; [fuel] bounds the
    nesting and the number of items. *)
Fixpoint parseValue (fuel : nat) (s : string) : option (json * string) :=
  match fuel with
  | O => None
  | S fuel' =>
      match s with
      | EmptyString => None
      | String c rest =>
          if Ascii.eqb c "034" then mapValue JString (parseChars rest)
          else if Ascii.eqb c "[" then
            match rest with
            | EmptyString => None
            | String c' rest' =>
                if Ascii.eqb c' "]" then Some (JArray [], rest')
                else mapValue JArray (parseItems (parseValue fuel') fuel' rest)
            end
          else if Ascii.eqb c "{" then
            match rest with
            | EmptyString => None
            | String c' rest' =>
                if Ascii.eqb c' "}" then Some (JObject [], rest')
                else mapValue JObject (parseMembers (parseValue fuel') fuel' rest)
            end
          else None
      end
  end.

(** [JSON.parse(s)], on such texts. *)
Definition JSON_parse (s : string) : option json :=
  match parseValue (String.length s) s with
  | Some (v, EmptyString) => Some v
  | _ => None
  end.

(** The number of values in a value: enough fuel to read it back. *)
Fixpoint jsize (v : json) : nat :=
  match v with
  | JString _ => 1
  | JArray items => S (list_sum (map jsize items))
  | JObject members => S (list_sum (map (λ kv, jsize kv.2) members))
  end.

(** Induction on values, with the property for the items of an array and
    for the values of the members of an object. *)
Section JsonInduction.
Variable P : json → Prop.
Hypothesis Hstring : ∀ s, P (JString s).
Hypothesis Harray : ∀ items, Forall P items → P (JArray items).
Hypothesis Hobject : ∀ members, Forall (λ kv, P kv.2) members → P (JObject members).

Fixpoint json_nested_ind (v : json) : P v :=
  match v with
  | JString s => Hstring s
  | JArray items =>
      Harray items
        ((fix itemsHold (l : list json) : Forall P l :=
            match l with
            | [] => Forall_nil_2 P
            | x :: l' => Forall_cons_2 P x l' (json_nested_ind x) (itemsHold l')
            end) items)
  | JObject members =>
      Hobject members
        ((fix membersHold (l : list (string * json)) : Forall (λ kv, P kv.2) l :=
            match l with
            | [] => Forall_nil_2 _
            | x :: l' =>
                Forall_cons_2 (λ kv, P kv.2) x l' (json_nested_ind x.2) (membersHold l')
            end) members)
  end.
End JsonInduction.

(** A written value starts with the character that opens a string, an
    array or an object. *)
Definition opens (s : string) : Prop :=
  ∃ c t, s = String c t ∧ (c = "034" ∨ c = "[" ∨ c = "{")%char.

(** [v] is read back from its text, whatever follows the text. *)
Definition reads (v : json) : Prop :=
  ∀ (fuel : nat) (rest : string),
    (jsize v ≤ fuel)%nat →
    parseValue fuel (JSON_stringify v +:+ rest) = Some (v, rest).

(** ** Forbidden headers

    [append] on a guarded [Headers] object silently drops the headers that
    scripts may not set.  The constructors of [Request] and [Response] fill
    their header lists through it. *)

Definition forbiddenRequestHeaderNames : list string :=
  [ "accept-charset"; "accept-encoding"; "access-control-request-headers";
    "access-control-request-method"; "connection"; "content-length";
    "cookie"; "cookie2"; "date"; "dnt"; "expect"; "host"; "keep-alive";
    "origin"; "referer"; "set-cookie"; "te"; "trailer"; "transfer-encoding";
    "upgrade"; "via" ].

Definition methodOverrideHeaderNames : list string :=
  [ "x-http-method"; "x-http-method-override"; "x-method-override" ].

Definition forbiddenMethods : list string := [ "connect"; "trace"; "track" ].

Definition inList (x : string) (l : list string) : bool :=
  existsb (String.eqb x) l.

Definition isTabOrSpace (c : ascii) : bool :=
  let n := N_of_ascii c in ((n =? 9) || (n =? 32))%N.

Fixpoint trimStart (s : string) : string :=
  match s with
  | String c s' => if isTabOrSpace c then trimStart s' else s
  | EmptyString => EmptyString
  end.

Definition trim (s : string) : string :=
  String.rev (trimStart (String.rev (trimStart s))).

(** Where the scanner of a header value stands: outside a quoted string,
    inside one, or right after a backslash inside one. *)
Inductive SplitState : Type := Outside | InQuote | Escaped.

(** "Get, decode, and split" of a header value: the comma-separated items,
    commas inside quoted strings not counting; [cur] is the current item,
    reversed. *)
Fixpoint splitValue (st : SplitState) (cur : string) (s : string) : list string :=
  match s with
  | EmptyString => [trim (String.rev cur)]
  | String c s' =>
      match st with
      | Outside =>
          if Ascii.eqb c "," then trim (String.rev cur) :: splitValue Outside EmptyString s'
          else if Ascii.eqb c "034" then splitValue InQuote (String c cur) s'
          else splitValue Outside (String c cur) s'
      | InQuote =>
          if Ascii.eqb c "\" then splitValue Escaped (String c cur) s'
          else if Ascii.eqb c "034" then splitValue Outside (String c cur) s'
          else splitValue InQuote (String c cur) s'
      | Escaped => splitValue InQuote (String c cur) s'
      end
  end.

Definition forbiddenRequestHeader (name value : string) : bool :=
  let n := toLowerCase name in
  inList n forbiddenRequestHeaderNames
  || startsWith n "proxy-" || startsWith n "sec-"
  || (inList n methodOverrideHeaderNames
      && existsb (λ m, inList (toLowerCase m) forbiddenMethods)
                 (splitValue Outside EmptyString value)).

Definition forbiddenResponseHeaderName (name : string) : bool :=
  inList (toLowerCase name) [ "set-cookie"; "set-cookie2" ].

Definition refuses (g : Guard) (name value : string) : bool :=
  match g with
  | GuardNone => false
  | GuardRequest => forbiddenRequestHeader name value
  | GuardResponse => forbiddenResponseHeaderName name
  end.

(** [append]: refused headers are dropped without an error; a value for a
    name that is already there is combined with the old one. *)
Definition Headers_append (g : Guard) (h : Headers) (name value : string) : Headers :=
  if refuses g name value then h
  else
    match h !! toLowerCase name with
    | Some old => <[toLowerCase name := old +:+ ", " +:+ value]> h
    | None => <[toLowerCase name := value]> h
    end.

(** "Fill" a guarded, empty object from a list of headers. *)
Definition Headers_fill (g : Guard) (init : list (string * string)) : Headers :=
  foldl (λ h kv, Headers_append g h kv.1 kv.2) ∅ init.

(** A body given as a string has this type; the constructors add it as
    [Content-Type] when the headers have none. *)
Definition textPlain : string := "text/plain;charset=UTF-8".

Definition withContentType (body : option string) (h : Headers) : Headers :=
  match body, h !! "content-type" with
  | Some _, None => <["content-type" := textPlain]> h
  | _, _ => h
  end.

(** ** [Request] and [Response] *)

Record Request : Type := mkRequest {
  url : string;
  method : string;
  headers : Headers;
  body : option string;          (* [None]: no body *)
  credentials : string;
  mode : string
}.

(** [request.clone().text()]: the body as text, empty for a request without
    a body.  The clone leaves [request] as it was, so every attempt reads the
    same text. *)
Definition Request_text (request : Request) : string :=
  default EmptyString (body request).

(** A response.  [text] is what [await response.text()] settles to: the body,
    or the error that ended the transfer while it was read. *)
Record Response : Type := mkResponse {
  status : Z;
  statusText : string;
  responseHeaders : Headers;
  text : result JsError string
}.

Definition typeError (msg : string) : JsError := mkError "TypeError" msg.
Definition rangeError (msg : string) : JsError := mkError "RangeError" msg.

(** The second argument of [new Request(input, init)]. *)
Record RequestInit : Type := mkRequestInit {
  initMethod : string;
  initRequestHeaders : Headers;
  initBody : option string;
  initCredentials : string;
  initRequestMode : string
}.

(** [new Request(input, init)] for a URL string [input], as far as the
    worker uses it (Fetch, the Request constructor): a body on a [GET] or
    [HEAD] request is a [TypeError]; the header list is filled under the
    guard [request], which drops the forbidden request-headers; a body given
    as a string brings its [Content-Type] when there is none.  The URL string
    is kept as it is written: the worker builds it from a serialized path and
    query. *)
Definition new_Request (input : string) (init : RequestInit) : result JsError Request :=
  if bool_decide (initBody init ≠ None)
     && (String.eqb (initMethod init) "GET" || String.eqb (initMethod init) "HEAD")
  then Throw (typeError "Request with GET/HEAD method cannot have body.")
  else
    Ok {| url := input;
          method := initMethod init;
          headers := withContentType (initBody init)
                       (Headers_fill GuardRequest
                          (Headers_entries (initRequestHeaders init)));
          body := initBody init;
          credentials := initCredentials init;
          mode := initRequestMode init |}.

(** The second argument of [new Response(body, init)]; a member that the
    worker leaves out has its default ([200], the empty status text, no
    headers). *)
Record ResponseInit : Type := mkResponseInit {
  initStatus : Z;
  initStatusText : string;
  initHeaders : list (string * string)
}.

(** A status that admits no body: [new Response] refuses to pair it with
    one. *)
Definition nullBodyStatus (s : Z) : bool :=
  bool_decide (s ∈ [101; 103; 204; 205; 304]).

(** The [reason-phrase] production: tab, space, visible characters and
    bytes from 128 on. *)
Definition reasonPhraseChar (c : ascii) : bool :=
  let n := N_of_ascii c in
  ((n =? 9) || ((32 <=? n) && negb (n =? 127)))%N.

Fixpoint isReasonPhrase (s : string) : bool :=
  match s with
  | EmptyString => true
  | String c s' => reasonPhraseChar c && isReasonPhrase s'
  end.

(** [new Response(body, init)] (Fetch, "initialize a response"):
    + a status outside of 200..599 is a [RangeError];
    + a status text that is no reason phrase is a [TypeError];
    + the headers are filled under the guard [response];
    + a body together with a null body status is a [TypeError];
    + a body given as a string brings its [Content-Type] when there is none.
    The wording of the messages is the engine's. *)
Definition new_Response (body : option string) (init : ResponseInit)
  : result JsError Response :=
  if negb ((200 <=? initStatus init) && (initStatus init <=? 599)) then
    Throw (rangeError "The status provided is outside the range [200, 599].")
  else if negb (isReasonPhrase (initStatusText init)) then
    Throw (typeError "Invalid statusText")
  else if bool_decide (body ≠ None) && nullBodyStatus (initStatus init) then
    Throw (typeError "Response with null body status cannot have body")
  else
    Ok {| status := initStatus init;
          statusText := initStatusText init;
          responseHeaders :=
            withContentType body (Headers_fill GuardResponse (initHeaders init));
          text := Ok (default EmptyString body) |}.

(** ** The platform around the worker *)

(** The parts of a parsed URL that the worker reads. *)
Record URL : Type := mkURL {
  pathname : string;
  search : string                (* empty, or the query with its question mark *)
}.

(** The second argument of [fetch]: the time in milliseconds after which
    the signal aborts the request, and the mode. *)
Record FetchInit : Type := mkFetchInit {
  signalTimeout : Z;
  fetchMode : string
}.

(** One call of [fetch]. *)
Record FetchCall : Type := mkFetchCall {
  callRequest : Request;
  callInit : option FetchInit
}.

(** What the worker does not decide:
    - [parseURL s] is [new URL(s)];
    - [network n call] is what the [n]-th call of [fetch] of an operation
      settles to: a response, whatever its status, or the rejection of the
      promise (network error, abort by the signal, CORS failure);
    - [now] is [new Date().toISOString()];
    - [cacheDeleteError name] is the error with which [caches.delete(name)]
      rejects, when it does. *)
Class Platform : Type := {
  parseURL : string → URL;
  network : nat → FetchCall → result JsError Response;
  now : string;
  cacheDeleteError : string → option JsError
}.

(** ** Promises that log their calls of [fetch]

    An asynchronous computation takes the calls made so far and gives the
    calls made when it settles, and its [result]. *)
Definition Async (A : Type) : Type :=
  list FetchCall → list FetchCall * result JsError A.

Definition reject {A} (e : JsError) : Async A := λ log, (log, Throw e).

(** A value that is there, or an exception that is thrown, at once. *)
Definition settled {A} (r : result JsError A) : Async A := λ log, (log, r).

(** [await m], then [k]; a rejection of [m] is thrown on. *)
Definition andThen {A B} (m : Async A) (k : A → Async B) : Async B :=
  λ log,
    match m log with
    | (log', Ok a) => k a log'
    | (log', Throw e) => (log', Throw e)
    end.

(** [try { return m } catch (error) { handler }], and [m.catch(handler)]. *)
Definition tryCatch {A} (m : Async A) (handler : JsError → Async A) : Async A :=
  λ log,
    match m log with
    | (log', Ok a) => (log', Ok a)
    | (log', Throw e) => handler e log'
    end.

Notation "'let*' x ← m ; k" := (andThen m (λ x, k))
  (at level 10, x name, m at level 100, k at level 200).

Notation "'try' m 'catch' e ⇒ h" := (tryCatch m (λ e, h))
  (at level 10, e name, m at level 100, h at level 200).

(** ** The worker: configuration *)

Definition CACHE_NAME : string := "wyerd-crm-v2".

Definition PRIMARY_BACKEND : string :=
  "https://expert-fishstick-7vwj9x9vj6r93wqqp-5173.app.github.dev".

Definition FALLBACK_BACKENDS : list string :=
  [ "https://expert-fishstick-7vwj9x9vj6r93wqqp-5000.app.github.dev";
    "https://facilitate-dim-insight-writes.trycloudflare.com" ].

(** The candidates of [handleApiRequest], in the order of the attempts. *)
Definition backendUrls : list string := PRIMARY_BACKEND :: FALLBACK_BACKENDS.

(** The headers of the response that forwards a backend's answer. *)
Definition corsHeaders : list (string * string) :=
  [ ("Content-Type", "application/json");
    ("Access-Control-Allow-Origin", "https://wyerd.net");
    ("Access-Control-Allow-Methods", "GET, POST, PUT, DELETE, OPTIONS");
    ("Access-Control-Allow-Headers", "Content-Type, Authorization, X-Requested-With");
    ("Access-Control-Allow-Credentials", "true") ].

(** The same, as the [Headers] object of the response. *)
Definition corsHeaderMap : Headers :=
  {[ "content-type" := "application/json";
     "access-control-allow-origin" := "https://wyerd.net";
     "access-control-allow-methods" := "GET, POST, PUT, DELETE, OPTIONS";
     "access-control-allow-headers" := "Content-Type, Authorization, X-Requested-With";
     "access-control-allow-credentials" := "true" ]}.

(** The headers of the 503 that reports that no backend answered. *)
Definition allFailedHeaders : list (string * string) :=
  [ ("Content-Type", "application/json");
    ("Access-Control-Allow-Origin", "*") ].

Definition solutions : list string :=
  [ "Start dev server: npm run dev (port 5173)";
    "Start backend: node server.js (http://localhost:5000)";
    "Check CORS configuration";
    "Verify MongoDB connection" ].

(** [lastError?.message || 'Unknown error']: the message of the last
    failure, unless there is none or it is empty. *)
Definition lastErrorMessage (lastError : option JsError) : string :=
  match lastError with
  | None => "Unknown error"
  | Some error =>
      if String.eqb (message error) EmptyString then "Unknown error"
      else message error
  end.

(** The object that the 503 carries. *)
Definition allFailedPayload (candidates : list string) (lastError : option JsError)
    (timestamp : string) : json :=
  JObject
    [ ("error", JString "All Backends Failed");
      ("message", JString
         "Unable to connect to any backend server. Check if development server is running.");
      ("backends", JArray (JString <$> candidates));
      ("lastError", JString (lastErrorMessage lastError));
      ("solutions", JArray (JString <$> solutions));
      ("timestamp", JString timestamp) ].

(** The object that the 500 of the [fetch] listener carries. *)
Definition apiRequestFailedPayload (error : JsError) : json :=
  JObject
    [ ("error", JString "API request failed");
      ("message", JString (message error)) ].

(** ** The worker: [handleApiRequest] *)

Section Worker.
Context {platform : Platform}.

(** [fetch(request, init)]: the call is logged, and settles as the network
    decides. *)
Definition fetch (request : Request) (init : option FetchInit) : Async Response :=
  λ log,
    let call := mkFetchCall request init in
    (log ++ [call], network (length log) call).

(** [await response.text()] *)
Definition Response_text (response : Response) : Async string :=
  settled (text response).

(** Lines 91 to 96: a fresh [Headers] object on which every entry of the
    original headers is [set]. *)
Definition copyHeaders (original : Headers) : Headers :=
  foldl (λ requestHeaders kv, Headers_set requestHeaders kv.1 kv.2)
        ∅ (Headers_entries original).

(** Lines 91 to 106: the copy, without [Origin] for a Codespace backend and
    with the origin of the site for any other. *)
Definition requestHeadersFor (backendUrl : string) (request : Request) : Headers :=
  let requestHeaders := copyHeaders (headers request) in
  if includes backendUrl "app.github.dev"
  then Headers_delete requestHeaders "Origin"
  else Headers_set requestHeaders "Origin" "https://wyerd.net".

(** Line 87. *)
Definition fullBackendUrl (backendUrl : string) (request : Request) : string :=
  let url := parseURL (url request) in
  backendUrl +:+ pathname url +:+ search url.

(** Line 111: the body of [backendRequest]. *)
Definition backendBody (request : Request) : option string :=
  if negb (String.eqb (method request) "GET")
     && negb (String.eqb (method request) "HEAD")
  then Some (Request_text request)
  else None.

(** Lines 108 to 114: [backendRequest]. *)
Definition backendRequestFor (backendUrl : string) (request : Request)
  : result JsError Request :=
  new_Request (fullBackendUrl backendUrl request)
    {| initMethod := method request;
       initRequestHeaders := requestHeadersFor backendUrl request;
       initBody := backendBody request;
       initCredentials := "include";
       initRequestMode := "cors" |}.

(** The abort signal of the attempt (ten seconds) and the mode. *)
Definition attemptInit : FetchInit :=
  {| signalTimeout := 10000; fetchMode := "cors" |}.

(** Lines 129 to 141: the response that forwards [response] with the body
    [responseBody]. *)
Definition forwardedResponse (response : Response) (responseBody : string)
  : result JsError Response :=
  new_Response (Some responseBody)
    {| initStatus := status response;
       initStatusText := statusText response;
       initHeaders := corsHeaders |}.

(** Lines 87 to 141: the body of the [try] block for one backend. *)
Definition attempt (backendUrl : string) (request : Request) : Async Response :=
  let* backendRequest ← settled (backendRequestFor backendUrl request);
  let* response ← fetch backendRequest (Some attemptInit);
  let* responseBody ← Response_text response;
  settled (forwardedResponse response responseBody).

(** Lines 155 to 178: the answer when the loop is left without a response. *)
Definition allBackendsFailed (candidates : list string) (lastError : option JsError)
  : Async Response :=
  settled
    (new_Response (Some (JSON_stringify (allFailedPayload candidates lastError now)))
       {| initStatus := 503;
          initStatusText := EmptyString;
          initHeaders := allFailedHeaders |}).

(** Lines 84 to 178: the loop over the backends that are left, [rest]; the
    [catch] block keeps the error in [lastError] and goes on with the next
    backend ([continue], or the end of the loop body for the last one: the
    test on [i] decides what is logged, nothing else). *)
Fixpoint tryBackends (candidates rest : list string) (request : Request)
    (lastError : option JsError) : Async Response :=
  match rest with
  | [] => allBackendsFailed candidates lastError
  | backendUrl :: rest' =>
      try attempt backendUrl request
      catch error ⇒ tryBackends candidates rest' request (Some error)
  end.

(** [handleApiRequest] for a list of candidates. *)
Definition handleApiRequestWith (candidates : list string) (request : Request)
  : Async Response :=
  tryBackends candidates candidates request None.

Definition handleApiRequest (request : Request) : Async Response :=
  handleApiRequestWith backendUrls request.

(** ** The worker: the [fetch] listener *)

(** Lines 52 to 61: the handler of [.catch]. *)
Definition apiRequestFailed (error : JsError) : Async Response :=
  settled
    (new_Response (Some (JSON_stringify (apiRequestFailedPayload error)))
       {| initStatus := 500;
          initStatusText := EmptyString;
          initHeaders := [("Content-Type", "application/json")] |}).

(** Lines 42 to 68, for any routine [handler] in the place of
    [handleApiRequest]: the promise given to [event.respondWith]. *)
Definition onFetchWith (handler : Request → Async Response) (request : Request)
  : Async Response :=
  let url := parseURL (url request) in
  if startsWith (pathname url) "/api/"
  then try handler request catch error ⇒ apiRequestFailed error
  else fetch request None.

Definition onFetch (request : Request) : Async Response :=
  onFetchWith handleApiRequest request.

(** ** The worker: activation *)

(** [caches.delete(name)] on the stored cache names: the promise rejects
    and leaves the storage as it is, or resolves to whether there was such a
    cache, which is gone then. *)
Definition caches_delete (name : string) (stored : list string)
  : list string * result JsError bool :=
  match cacheDeleteError name with
  | Some e => (stored, Throw e)
  | None =>
      (filter (λ n, n ≠ name) stored, Ok (bool_decide (name ∈ stored)))
  end.

(** [names.map(name => caches.delete(name))]: every deletion is started,
    whatever becomes of the others. *)
Fixpoint deleteEach (names : list string) (stored : list string)
  : list string * list (result JsError bool) :=
  match names with
  | [] => (stored, [])
  | name :: rest =>
      let '(stored1, r) := caches_delete name stored in
      let '(stored2, rs) := deleteEach rest stored1 in
      (stored2, r :: rs)
  end.

(** The worker after [activate], when the deletions have settled: the
    caches left, whether [clients.claim()] was called, and what the promise
    given to [event.waitUntil] settled to. *)
Record Activated : Type := mkActivated {
  cachesLeft : list string;
  claimed : bool;
  waitUntil : result JsError unit
}.
End Worker.

(** [Promise.all(promises)]: the values, or the first rejection. *)
Fixpoint Promise_all {A} (promises : list (result JsError A))
  : result JsError (list A) :=
  match promises with
  | [] => Ok []
  | Throw e :: _ => Throw e
  | Ok a :: rest =>
      match Promise_all rest with
      | Ok values => Ok (a :: values)
      | Throw e => Throw e
      end
  end.

(** Lines 23 to 39: [caches.keys()] resolves to the names of the stored
    caches; a deletion is started for every name that is not [CACHE_NAME];
    [clients.claim()] is called once [Promise.all] of the deletions is
    fulfilled, and not at all when it is rejected: the chain has no
    rejection handler. *)
Definition onActivate {platform : Platform} (stored : list string) : Activated :=
  let cacheNames := stored in
  let '(stored', deletions) :=
    deleteEach (filter (λ cacheName, cacheName ≠ CACHE_NAME) cacheNames) stored in
  match Promise_all deletions with
  | Ok _ => {| cachesLeft := stored'; claimed := true; waitUntil := Ok () |}
  | Throw e => {| cachesLeft := stored'; claimed := false; waitUntil := Throw e |}
  end.

(** ** Vocabulary of the properties *)

Section Vocabulary.
Context {platform : Platform}.

(** The request that [new Request] builds for an attempt (lemma
    [backendRequestFor_builds]). *)
Definition backendRequestOf (backendUrl : string) (request : Request) : Request :=
  {| url := fullBackendUrl backendUrl request;
     method := method request;
     headers :=
       withContentType (backendBody request)
         (Headers_fill GuardRequest
            (Headers_entries (requestHeadersFor backendUrl request)));
     body := backendBody request;
     credentials := "include";
     mode := "cors" |}.

(** The call of [fetch] of an attempt. *)
Definition fetchCallFor (request : Request) (backendUrl : string) : FetchCall :=
  mkFetchCall (backendRequestOf backendUrl request) (Some attemptInit).

(** What the attempt makes of what its [fetch] settled to (lines 120 to
    143): the forwarded response, or the error that the [catch] block
    receives. *)
Definition attemptOutcome (fetched : result JsError Response) : result JsError Response :=
  match fetched with
  | Throw e => Throw e
  | Ok response =>
      match text response with
      | Throw e => Throw e
      | Ok responseBody => forwardedResponse response responseBody
      end
  end.

(** The answers that [new Response] accepts together with a body: a status
    from 200 to 599 that is no null body status, and a status text that is a
    reason phrase. *)
Definition forwardable (response : Response) : bool :=
  (200 <=? status response) && (status response <=? 599)
  && isReasonPhrase (statusText response)
  && negb (nullBodyStatus (status response)).

(** A failure of the transport: [fetch] rejects, or the transfer of the
    body breaks. *)
Definition transportFailure (fetched : result JsError Response) : option JsError :=
  match fetched with
  | Throw e => Some e
  | Ok response =>
      match text response with
      | Throw e => Some e
      | Ok _ => None
      end
  end.

(** The error of an outcome that is one. *)
Definition failure {A} (outcome : result JsError A) : option JsError :=
  match outcome with
  | Throw e => Some e
  | Ok _ => None
  end.

(** What [fetch] settles to for each backend of [rest], should the worker
    get to it; the first of them makes the [n]-th call of the operation. *)
Fixpoint fetchedFrom (n : nat) (rest : list string) (request : Request)
  : list (result JsError Response) :=
  match rest with
  | [] => []
  | backendUrl :: rest' =>
      network n (fetchCallFor request backendUrl) :: fetchedFrom (S n) rest' request
  end.

(** The error that [lastError] holds after attempts with these outcomes:
    every failure overwrites it. *)
Definition lastFailure (lastError : option JsError)
    (outcomes : list (result JsError Response)) : option JsError :=
  foldl (λ held outcome, from_option Some held (failure outcome)) lastError outcomes.
End Vocabulary.

(** ** Platforms and requests of the examples *)

Fixpoint afterScheme (s : string) : string :=
  match s with
  | String ":" (String "/" (String "/" rest)) => rest
  | String _ s' => afterScheme s'
  | EmptyString => EmptyString
  end.

Fixpoint breakAt (stop : ascii → bool) (s : string) : string * string :=
  match s with
  | EmptyString => (EmptyString, EmptyString)
  | String c s' =>
      if stop c then (EmptyString, s)
      else let '(before, from) := breakAt stop s' in (String c before, from)
  end.

(** Path and query of a serialized [http(s)] URL. *)
Definition splitURL (s : string) : URL :=
  let '(_, fromPath) :=
    breakAt (λ c, Ascii.eqb c "/" || Ascii.eqb c "?" || Ascii.eqb c "#") (afterScheme s) in
  let '(path, fromQuery) := breakAt (λ c, Ascii.eqb c "?" || Ascii.eqb c "#") fromPath in
  let '(query, _) := breakAt (λ c, Ascii.eqb c "#") fromQuery in
  {| pathname := if String.eqb path EmptyString then "/" else path;
     search := if String.eqb query "?" then EmptyString else query |}.

(** A platform whose network answers the [n]-th call with [answers n] and
    whose cache storage fails as [deleteError] says. *)
Definition platformOf (answers : nat → result JsError Response)
    (deleteError : string → option JsError) : Platform :=
  {| parseURL := splitURL;
     network := λ n _, answers n;
     now := "2025-11-19T08:30:00.000Z";
     cacheDeleteError := deleteError |}.

Definition backendAnswer (s : Z) (reason : string) (responseBody : string) : Response :=
  {| status := s;
     statusText := reason;
     responseHeaders := {[ "content-type" := "text/html"; "server" := "nginx" ]};
     text := Ok responseBody |}.

Definition okBody : string := JSON_stringify (JObject [("ok", JString "true")]).

Definition failedToFetch : JsError := typeError "Failed to fetch".

(** The first backend answers [204 No Content], the others [200]. *)
Definition noContentFirst : Platform :=
  platformOf (λ n, match n with
                   | O => Ok (backendAnswer 204 "No Content" EmptyString)
                   | _ => Ok (backendAnswer 200 "OK" okBody)
                   end)
             (λ _, None).

(** Every backend answers [204 No Content]. *)
Definition noContentEverywhere : Platform :=
  platformOf (λ _, Ok (backendAnswer 204 "No Content" EmptyString)) (λ _, None).

(** No backend is reached. *)
Definition unreachable : Platform :=
  platformOf (λ _, Throw failedToFetch) (λ _, None).

(** No backend is reached, and the errors carry no message. *)
Definition unreachableSilently : Platform :=
  platformOf (λ _, Throw (typeError EmptyString)) (λ _, None).

(** The first backend is not reached, the second answers [200]. *)
Definition secondAnswers : Platform :=
  platformOf (λ n, match n with
                   | O => Throw failedToFetch
                   | _ => Ok (backendAnswer 200 "OK" okBody)
                   end)
             (λ _, None).

(** The first backend answers [500]. *)
Definition firstErrs : Platform :=
  platformOf (λ _, Ok (backendAnswer 500 "Internal Server Error" "oops")) (λ _, None).

(** The cache of the previous version cannot be deleted. *)
Definition stubbornCache : Platform :=
  platformOf (λ _, Throw failedToFetch)
    (λ name, if String.eqb name "wyerd-crm-v1"
             then Some (mkError "UnknownError" "Internal error.")
             else None).

Definition apiRequest : Request :=
  {| url := "https://wyerd.net/api/customers?page=2";
     method := "GET";
     headers := {[ "accept" := "application/json"; "authorization" := "Bearer 8c1f" ]};
     body := None;
     credentials := "same-origin";
     mode := "cors" |}.

Definition deleteRequest : Request :=
  {| url := "https://wyerd.net/api/customers/42";
     method := "DELETE";
     headers := {[ "accept" := "application/json" ]};
     body := None;
     credentials := "same-origin";
     mode := "cors" |}.

Definition postRequest : Request :=
  {| url := "https://wyerd.net/api/customers";
     method := "POST";
     headers := {[ "content-type" := "application/json" ]};
     body := Some okBody;
     credentials := "same-origin";
     mode := "cors" |}.

Definition assetRequest : Request :=
  {| url := "https://wyerd.net/assets/logo.png";
     method := "GET";
     headers := ∅;
     body := None;
     credentials := "same-origin";
     mode := "no-cors" |}.

(** The request of [apiRequest] for another host, with other credentials
    and another mode. *)
Definition foreignApiRequest : Request :=
  {| url := "https://cdn.example.org/api/customers?page=2";
     method := "GET";
     headers := {[ "accept" := "application/json"; "authorization" := "Bearer 8c1f" ]};
     body := None;
     credentials := "omit";
     mode := "no-cors" |}.

(** A routine that fails at once, in the place of [handleApiRequest]. *)
Definition faultyRoutine (request : Request) : Async Response :=
  reject (typeError "Cannot read properties of undefined").

Local Close Scope Z_scope.

(** * Properties *)

(** ** Strings *)

Lemma app_cons c s t : String c s +:+ t = String c (s +:+ t).
Proof. reflexivity. Qed.

Lemma app_assoc_s (a b c : string) : (a +:+ b) +:+ c = a +:+ (b +:+ c).
Proof. induction a as [|x a IH]; [done|]. rewrite !app_cons. by rewrite IH. Qed.

Lemma app_empty_r (s : string) : s +:+ EmptyString = s.
Proof. induction s as [|c s IH]; [done|]. rewrite app_cons. by rewrite IH. Qed.

Lemma length_app_s (a b : string) :
  String.length (a +:+ b) = String.length a + String.length b.
Proof. induction a as [|x a IH]; [done|]. rewrite app_cons. simpl. by rewrite IH. Qed.

(** ** [JSON.parse] reads back what [JSON.stringify] writes *)

Lemma parseChars_cons c rest :
  parseChars (String c rest) =
  if Ascii.eqb c "034" then Some (EmptyString, rest)
  else if Ascii.eqb c "\" then
    match rest with
    | EmptyString => None
    | String e rest' =>
        if Ascii.eqb e "u" then
          match rest' with
          | String a (String b (String h (String l rest''))) =>
              match hexValue a, hexValue b, hexValue h, hexValue l with
              | Some 0%N, Some 0%N, Some x, Some y =>
                  consChar (ascii_of_N (16 * x + y)) (parseChars rest'')
              | _, _, _, _ => None
              end
          | _ => None
          end
        else
          match unescape e with
          | Some c' => consChar c' (parseChars rest')
          | None => None
          end
    end
  else if (N_of_ascii c <? 32)%N then None
  else consChar c (parseChars rest).
Proof. reflexivity. Qed.

(** Every byte is read back from its escape: one case per byte. *)
Lemma parseChars_escapeChar c t :
  parseChars (escapeChar c +:+ t) = consChar c (parseChars t).
Proof.
  destruct c as [[] [] [] [] [] [] [] []].
  all: match goal with
       | |- context [escapeChar ?c] =>
           let escaped := eval vm_compute in (escapeChar c) in
           change (escapeChar c) with escaped
       end;
       rewrite ?app_cons; change (EmptyString +:+ ?t) with t;
       rewrite parseChars_cons; reflexivity.
Qed.

Lemma parseChars_escapeString s rest :
  parseChars (escapeString s +:+ dquote +:+ rest) = Some (s, rest).
Proof.
  induction s as [|c s IH]; [reflexivity|].
  cbn [escapeString]. rewrite app_assoc_s, parseChars_escapeChar, IH. reflexivity.
Qed.

Lemma quote_app s rest :
  quoteJSONString s +:+ rest = String "034" (escapeString s +:+ dquote +:+ rest).
Proof. unfold quoteJSONString. rewrite !app_assoc_s. reflexivity. Qed.

Lemma stringify_opens v : opens (JSON_stringify v).
Proof.
  destruct v; simpl; unfold opens, quoteJSONString; rewrite ?app_cons; eauto 10.
Qed.

Lemma joinComma_one x : joinComma [x] = x.
Proof. reflexivity. Qed.

Lemma joinComma_more x y l :
  joinComma (x :: y :: l) = x +:+ "," +:+ joinComma (y :: l).
Proof. reflexivity. Qed.

Lemma parseItems_join pv items fuel rest :
  items ≠ [] →
  length items ≤ fuel →
  Forall (λ v, ∀ rest, pv (JSON_stringify v +:+ rest) = Some (v, rest)) items →
  parseItems pv fuel (joinComma (map JSON_stringify items) +:+ "]" +:+ rest)
  = Some (items, rest).
Proof.
  revert fuel. induction items as [|v items IH]; intros fuel Hne Hlen Hall; [done|].
  apply Forall_cons in Hall as [Hv Hall].
  destruct fuel as [|fuel]; [simpl in Hlen; lia|].
  destruct items as [|w items].
  - cbn [map]. rewrite joinComma_one. cbn [parseItems]. rewrite Hv. reflexivity.
  - cbn [map] in *. rewrite joinComma_more. cbn [parseItems].
    rewrite !app_assoc_s, Hv. rewrite app_cons.
    change (Ascii.eqb "," ",") with true. cbv iota.
    change (EmptyString +:+ ?t) with t.
    rewrite IH; [reflexivity|done|simpl in *; lia|done].
Qed.

Lemma parseMembers_join pv members fuel rest :
  members ≠ [] →
  length members ≤ fuel →
  Forall (λ kv, ∀ rest, pv (JSON_stringify kv.2 +:+ rest) = Some (kv.2, rest)) members →
  parseMembers pv fuel
    (joinComma (map (λ kv, quoteJSONString kv.1 +:+ ":" +:+ JSON_stringify kv.2) members)
       +:+ "}" +:+ rest)
  = Some (members, rest).
Proof.
  revert fuel. induction members as [|[k v] members IH]; intros fuel Hne Hlen Hall; [done|].
  apply Forall_cons in Hall as [Hv Hall]. simpl in Hv.
  destruct fuel as [|fuel]; [simpl in Hlen; lia|].
  destruct members as [|w members].
  - cbn [map fst snd]. rewrite joinComma_one. cbn [parseMembers].
    rewrite !app_assoc_s, quote_app.
    change (Ascii.eqb "034" "034") with true. cbv iota.
    rewrite parseChars_escapeString. rewrite app_cons.
    change (Ascii.eqb ":" ":") with true. cbv iota.
    change (EmptyString +:+ ?t) with t.
    rewrite Hv. reflexivity.
  - cbn [map fst snd] in *. rewrite joinComma_more. cbn [parseMembers].
    rewrite !app_assoc_s, quote_app.
    change (Ascii.eqb "034" "034") with true. cbv iota.
    rewrite parseChars_escapeString. rewrite app_cons.
    change (Ascii.eqb ":" ":") with true. cbv iota.
    change (EmptyString +:+ ?t) with t.
    rewrite Hv. rewrite app_cons.
    change (Ascii.eqb "," ",") with true. cbv iota.
    change (EmptyString +:+ ?t) with t.
    rewrite IH; [reflexivity|done|simpl in *; lia|done].
Qed.

Lemma jsize_pos v : 1 ≤ jsize v.
Proof. destruct v; simpl; lia. Qed.

Lemma list_sum_bound {A} (f : A → nat) (l : list A) x :
  x ∈ l → f x ≤ list_sum (map f l).
Proof.
  induction l as [|y l IH]; [by intros ?%elem_of_nil|].
  intros [->|Hin]%elem_of_cons; simpl; [lia|]. specialize (IH Hin). lia.
Qed.

Lemma list_sum_length {A} (f : A → nat) (l : list A) :
  (∀ x, 1 ≤ f x) → length l ≤ list_sum (map f l).
Proof.
  intros Hf. induction l as [|y l IH]; simpl; [lia|]. specialize (Hf y). lia.
Qed.

Lemma Forall_reads_bound (items : list json) fuel :
  Forall reads items → list_sum (map jsize items) ≤ fuel →
  Forall (λ v, ∀ rest, parseValue fuel (JSON_stringify v +:+ rest) = Some (v, rest)) items.
Proof.
  intros Hall Hsum. apply Forall_forall. intros v Hin rest.
  rewrite Forall_forall in Hall. apply (Hall v Hin).
  pose proof (list_sum_bound jsize items v Hin). lia.
Qed.

Lemma Forall_reads_bound_members (members : list (string * json)) fuel :
  Forall (λ kv, reads kv.2) members →
  list_sum (map (λ kv, jsize kv.2) members) ≤ fuel →
  Forall (λ kv, ∀ rest,
            parseValue fuel (JSON_stringify kv.2 +:+ rest) = Some (kv.2, rest)) members.
Proof.
  intros Hall Hsum. apply Forall_forall. intros kv Hin rest.
  rewrite Forall_forall in Hall. apply (Hall kv Hin).
  pose proof (list_sum_bound (λ kv, jsize kv.2) members kv Hin). simpl in *. lia.
Qed.

Lemma parseValue_stringify v : reads v.
Proof.
  induction v as [s|items IH|members IH] using json_nested_ind; intros fuel rest Hfuel.
  - destruct fuel as [|fuel]; [simpl in Hfuel; lia|].
    cbn [JSON_stringify]. rewrite quote_app. cbn [parseValue].
    change (Ascii.eqb "034" "034") with true. cbv iota.
    rewrite parseChars_escapeString. reflexivity.
  - destruct fuel as [|fuel]; [simpl in Hfuel; lia|].
    cbn [jsize] in Hfuel.
    cbn [JSON_stringify]. rewrite !app_assoc_s, app_cons.
    change (EmptyString +:+ ?t) with t.
    cbn [parseValue]. change (Ascii.eqb "[" "034") with false.
    change (Ascii.eqb "[" "[") with true. cbv iota.
    destruct items as [|v items]; [reflexivity|].
    destruct (stringify_opens v) as (c & t & Hv & Hc).
    assert (Hhead : ∃ t', joinComma (map JSON_stringify (v :: items)) +:+ "]" +:+ rest
                         = String c t').
    { destruct items; cbn [map]; rewrite ?joinComma_one, ?joinComma_more, Hv, ?app_cons;
        eauto. }
    destruct Hhead as [t' Ht']. rewrite Ht'.
    assert (Ascii.eqb c "]" = false) as ->.
    { destruct Hc as [->|[->| ->]]; reflexivity. }
    rewrite <- Ht'.
    rewrite parseItems_join; [reflexivity|done| |].
    + pose proof (list_sum_length jsize (v :: items) jsize_pos). lia.
    + apply Forall_reads_bound; [done|lia].
  - destruct fuel as [|fuel]; [simpl in Hfuel; lia|].
    cbn [jsize] in Hfuel.
    cbn [JSON_stringify]. rewrite !app_assoc_s, app_cons.
    change (EmptyString +:+ ?t) with t.
    cbn [parseValue]. change (Ascii.eqb "{" "034") with false.
    change (Ascii.eqb "{" "[") with false.
    change (Ascii.eqb "{" "{") with true. cbv iota.
    destruct members as [|[k v] members]; [reflexivity|].
    assert (Hhead : ∃ t',
      joinComma (map (λ kv, quoteJSONString kv.1 +:+ ":" +:+ JSON_stringify kv.2)
                     ((k, v) :: members)) +:+ "}" +:+ rest
      = String "034" t').
    { destruct members; cbn [map fst snd];
        rewrite ?joinComma_one, ?joinComma_more, !app_assoc_s, quote_app; eauto. }
    destruct Hhead as [t' Ht']. rewrite Ht'.
    change (Ascii.eqb "034" "}") with false. cbv iota.
    rewrite <- Ht'.
    rewrite parseMembers_join; [reflexivity|done| |].
    + pose proof (list_sum_length (λ kv : string * json, jsize kv.2) ((k, v) :: members)
                    (λ kv, jsize_pos kv.2)). lia.
    + apply Forall_reads_bound_members; [done|lia].
Qed.

Lemma length_joinComma items :
  Forall (λ v, jsize v ≤ String.length (JSON_stringify v)) items →
  list_sum (map jsize items) ≤ String.length (joinComma (map JSON_stringify items)).
Proof.
  induction 1 as [|v items Hv Hall IH]; [done|].
  destruct items as [|w items].
  - cbn [map]. rewrite joinComma_one. simpl. lia.
  - cbn [map] in *. rewrite joinComma_more, !length_app_s. simpl in *. lia.
Qed.

Lemma length_joinComma_members members :
  Forall (λ kv : string * json, jsize kv.2 ≤ String.length (JSON_stringify kv.2)) members →
  list_sum (map (λ kv, jsize kv.2) members)
  ≤ String.length
      (joinComma (map (λ kv, quoteJSONString kv.1 +:+ ":" +:+ JSON_stringify kv.2) members)).
Proof.
  induction 1 as [|[k v] members Hv Hall IH]; [done|].
  destruct members as [|w members].
  - cbn [map fst snd]. rewrite joinComma_one, !length_app_s. simpl in *. lia.
  - cbn [map fst snd] in *. rewrite joinComma_more, !length_app_s. simpl in *. lia.
Qed.

(** The text of a value is long enough to count as the fuel of its
    reading. *)
Lemma jsize_length v : jsize v ≤ String.length (JSON_stringify v).
Proof.
  induction v as [s|items IH|members IH] using json_nested_ind.
  - simpl. unfold quoteJSONString. rewrite !length_app_s. simpl. lia.
  - cbn [JSON_stringify jsize]. rewrite !length_app_s.
    pose proof (length_joinComma items IH). simpl. lia.
  - cbn [JSON_stringify jsize]. rewrite !length_app_s.
    pose proof (length_joinComma_members members IH). simpl. lia.
Qed.

(** The body of a response of the worker, parsed, is the object that the
    worker wrote. *)
Lemma JSON_parse_stringify v : JSON_parse (JSON_stringify v) = Some v.
Proof.
  unfold JSON_parse.
  pose proof (parseValue_stringify v (String.length (JSON_stringify v)) EmptyString
                (jsize_length v)) as Hread.
  rewrite app_empty_r in Hread. rewrite Hread. reflexivity.
Qed.

(** ** The responses that the worker builds *)

Lemma corsHeaders_filled body :
  withContentType body (Headers_fill GuardResponse corsHeaders) = corsHeaderMap.
Proof. destruct body; reflexivity. Qed.

Lemma allFailedHeaders_filled body :
  withContentType body (Headers_fill GuardResponse allFailedHeaders) =
  {[ "content-type" := "application/json"; "access-control-allow-origin" := "*" ]}.
Proof. destruct body; reflexivity. Qed.

Lemma jsonHeaders_filled body :
  withContentType body (Headers_fill GuardResponse [("Content-Type", "application/json")]) =
  {[ "content-type" := "application/json" ]}.
Proof. destruct body; reflexivity. Qed.

Section Responses.
Context {platform : Platform}.

(** The constructor accepts the 503. *)
Lemma allBackendsFailed_builds candidates lastError log :
  allBackendsFailed candidates lastError log =
  (log, Ok {| status := 503;
              statusText := EmptyString;
              responseHeaders :=
                {[ "content-type" := "application/json";
                   "access-control-allow-origin" := "*" ]};
              text := Ok (JSON_stringify (allFailedPayload candidates lastError now)) |}).
Proof.
  unfold allBackendsFailed, settled, new_Response.
  cbn -[Headers_fill withContentType JSON_stringify allFailedPayload].
  by rewrite allFailedHeaders_filled.
Qed.

(** The constructor accepts the 500. *)
Lemma apiRequestFailed_builds error log :
  apiRequestFailed error log =
  (log, Ok {| status := 500;
              statusText := EmptyString;
              responseHeaders := {[ "content-type" := "application/json" ]};
              text := Ok (JSON_stringify (apiRequestFailedPayload error)) |}).
Proof.
  unfold apiRequestFailed, settled, new_Response.
  cbn -[Headers_fill withContentType JSON_stringify].
  by rewrite jsonHeaders_filled.
Qed.

Lemma forwardedResponse_forwardable response responseBody :
  forwardable response = true →
  forwardedResponse response responseBody =
  Ok {| status := status response;
        statusText := statusText response;
        responseHeaders := corsHeaderMap;
        text := Ok responseBody |}.
Proof.
  unfold forwardable, forwardedResponse, new_Response.
  cbn [initStatus initStatusText initHeaders].
  intros [[-> ->]%andb_prop ->%negb_true_iff]%andb_prop.
  cbn -[Headers_fill withContentType]. by rewrite corsHeaders_filled.
Qed.

Lemma forwardedResponse_refused response responseBody :
  forwardable response = false →
  is_Some (failure (forwardedResponse response responseBody)).
Proof.
  unfold forwardable, forwardedResponse, new_Response.
  cbn [initStatus initStatusText initHeaders].
  destruct ((200 <=? status response)%Z && (status response <=? 599)%Z); [|by eexists].
  destruct (isReasonPhrase (statusText response)); [|by eexists].
  destruct (nullBodyStatus (status response)); [by eexists|done].
Qed.

Lemma forwardedResponse_ok response responseBody forwarded :
  forwardedResponse response responseBody = Ok forwarded →
  forwarded = {| status := status response;
                 statusText := statusText response;
                 responseHeaders := corsHeaderMap;
                 text := Ok responseBody |}.
Proof.
  unfold forwardedResponse, new_Response.
  cbn [initStatus initStatusText initHeaders].
  repeat case_match; try discriminate.
  intros [= <-]. reflexivity.
Qed.

(** Every error status is one that the constructor accepts. *)
Lemma error_status_forwardable response :
  (400 ≤ status response ≤ 599)%Z →
  isReasonPhrase (statusText response) = true →
  forwardable response = true.
Proof.
  intros Hstatus Hreason. unfold forwardable. rewrite Hreason.
  assert (nullBodyStatus (status response) = false) as ->.
  { unfold nullBodyStatus. apply bool_decide_eq_false.
    rewrite !elem_of_cons, elem_of_nil. lia. }
  replace (200 <=? status response)%Z with true by (symmetry; apply Z.leb_le; lia).
  replace (status response <=? 599)%Z with true by (symmetry; apply Z.leb_le; lia).
  reflexivity.
Qed.
End Responses.

(** ** The loop over the backends *)

Section Loop.
Context {platform : Platform}.

(** The constructor accepts the request of every attempt. *)
Lemma backendRequestFor_builds backendUrl request :
  backendRequestFor backendUrl request = Ok (backendRequestOf backendUrl request).
Proof.
  unfold backendRequestFor, backendRequestOf, new_Request, backendBody. cbn.
  destruct (String.eqb (method request) "GET"), (String.eqb (method request) "HEAD");
    reflexivity.
Qed.

(** An attempt makes one call of [fetch], and settles as [attemptOutcome]
    says. *)
Lemma attempt_runs backendUrl request log :
  attempt backendUrl request log =
  (log ++ [fetchCallFor request backendUrl],
   attemptOutcome (network (length log) (fetchCallFor request backendUrl))).
Proof.
  unfold attempt, andThen, settled, fetch, Response_text.
  rewrite backendRequestFor_builds. fold (fetchCallFor request backendUrl).
  destruct (network (length log) (fetchCallFor request backendUrl)) as [response|e];
    [|reflexivity].
  cbn. destruct (text response); reflexivity.
Qed.

Lemma lastFailure_cons lastError e outcomes :
  lastFailure lastError (Throw e :: outcomes) = lastFailure (Some e) outcomes.
Proof. reflexivity. Qed.

Lemma lastFailure_last outcomes : ∀ lastError e,
  Forall (λ outcome, is_Some (failure outcome)) outcomes →
  last outcomes ≫= failure = Some e →
  lastFailure lastError outcomes = Some e.
Proof.
  induction outcomes as [|o outcomes IH]; intros lastError e Hall Hlast; [done|].
  apply Forall_cons in Hall as [[e' He'] Hall].
  destruct o as [|e'']; [discriminate|]. rewrite lastFailure_cons.
  destruct outcomes as [|o' outcomes].
  - cbn in *. congruence.
  - apply IH; [done|]. by rewrite last_cons_cons in Hlast.
Qed.

(** When every attempt fails, the worker has called every backend, and
    answers with the 503 that carries the error of the last attempt. *)
Lemma tryBackends_failed rest : ∀ candidates request lastError log,
  Forall (λ fetched, is_Some (failure (attemptOutcome fetched)))
         (fetchedFrom (length log) rest request) →
  tryBackends candidates rest request lastError log =
  allBackendsFailed candidates
    (lastFailure lastError (attemptOutcome <$> fetchedFrom (length log) rest request))
    (log ++ (fetchCallFor request <$> rest)).
Proof.
  induction rest as [|backendUrl rest IH]; intros candidates request lastError log Hall.
  - cbn. by rewrite app_nil_r.
  - cbn [fetchedFrom] in Hall. apply Forall_cons in Hall as [[e He] Hall].
    cbn [tryBackends]. unfold tryCatch. rewrite attempt_runs.
    destruct (attemptOutcome _) as [|e'] eqn:Hout; [discriminate|].
    cbn in He. injection He as ->.
    rewrite IH; rewrite length_app, Nat.add_1_r; [|exact Hall].
    cbn [fetchedFrom fmap list_fmap]. rewrite Hout, lastFailure_cons.
    by rewrite <- app_assoc.
Qed.

(** The first attempt that does not fail ends the loop: the backends after
    it are not called. *)
Lemma tryBackends_first pre : ∀ candidates backendUrl post request lastError log forwarded,
  Forall (λ fetched, is_Some (failure (attemptOutcome fetched)))
         (fetchedFrom (length log) pre request) →
  attemptOutcome (network (length log + length pre) (fetchCallFor request backendUrl))
    = Ok forwarded →
  tryBackends candidates (pre ++ backendUrl :: post) request lastError log =
  (log ++ (fetchCallFor request <$> pre ++ [backendUrl]), Ok forwarded).
Proof.
  induction pre as [|b pre IH];
    intros candidates backendUrl post request lastError log forwarded Hall Hok.
  - cbn [app tryBackends]. unfold tryCatch. rewrite attempt_runs.
    cbn in Hok. rewrite Nat.add_0_r in Hok. by rewrite Hok.
  - cbn [fetchedFrom] in Hall. apply Forall_cons in Hall as [[e He] Hall].
    cbn [app tryBackends]. unfold tryCatch. rewrite attempt_runs.
    destruct (attemptOutcome _) as [|e'] eqn:Hout; [discriminate|].
    rewrite (IH _ _ _ _ _ _ forwarded).
    + cbn [fmap list_fmap app]. by rewrite <- app_assoc.
    + by rewrite length_app, Nat.add_1_r.
    + rewrite length_app, Nat.add_1_r. cbn in Hok.
      by replace (S (length log) + length pre) with (length log + S (length pre)) by lia.
Qed.

(** The same for the backend at an index of the list of candidates. *)
Lemma handleApiRequestWith_first candidates request n backendUrl forwarded :
  candidates !! n = Some backendUrl →
  Forall (λ fetched, is_Some (failure (attemptOutcome fetched)))
         (fetchedFrom 0 (take n candidates) request) →
  attemptOutcome (network n (fetchCallFor request backendUrl)) = Ok forwarded →
  handleApiRequestWith candidates request []
  = (fetchCallFor request <$> take (S n) candidates, Ok forwarded).
Proof.
  intros Hn Hfailed Hforwarded. unfold handleApiRequestWith.
  rewrite <- (take_drop_middle candidates n backendUrl Hn) at 2.
  assert (Hlen : length (take n candidates) = n).
  { apply length_take_le. apply lookup_lt_Some in Hn. lia. }
  rewrite (tryBackends_first _ _ _ _ _ _ _ forwarded); cbn [length].
  - by rewrite (take_S_r _ _ _ Hn).
  - done.
  - by rewrite Nat.add_0_l, Hlen.
Qed.

Lemma transportFailure_outcome fetched e :
  transportFailure fetched = Some e → attemptOutcome fetched = Throw e.
Proof.
  destruct fetched as [response|e']; cbn; [|congruence].
  destruct (text response); congruence.
Qed.

(** The loop never rejects: whatever the network does, it settles to a
    response. *)
Lemma tryBackends_settles rest : ∀ candidates request lastError log,
  ∃ response, (tryBackends candidates rest request lastError log).2 = Ok response.
Proof.
  induction rest as [|backendUrl rest IH]; intros candidates request lastError log.
  - cbn [tryBackends]. rewrite allBackendsFailed_builds. by eexists.
  - cbn [tryBackends]. unfold tryCatch. rewrite attempt_runs.
    destruct (attemptOutcome _) as [forwarded|e]; [by eexists|]. apply IH.
Qed.
End Loop.

(** ** The headers of the request of an attempt *)

Lemma foldl_insert_lookup (l : list (string * string)) : ∀ (acc : Headers) k,
  NoDup l.*1 →
  foldl (λ h kv, <[kv.1 := kv.2]> h) acc l !! k =
  match (list_to_map l : Headers) !! k with
  | Some v => Some v
  | None => acc !! k
  end.
Proof.
  induction l as [|[k0 v0] l IH]; intros acc k Hnodup; [done|].
  apply NoDup_cons in Hnodup as [Hk0 Hnodup].
  cbn [foldl fst snd]. rewrite IH by done.
  change (list_to_map ((k0, v0) :: l) : Headers)
    with (<[k0 := v0]> (list_to_map l : Headers)).
  destruct (decide (k = k0)) as [->|Hne].
  - rewrite (not_elem_of_list_to_map_1 _ _ Hk0). by rewrite !lookup_insert_eq.
  - by rewrite !lookup_insert_ne.
Qed.

(** A name that the guard refuses, whatever its value, is in no header list
    that was filled under the guard. *)
Lemma Headers_fill_refused g init k :
  (∀ name value, toLowerCase name = k → refuses g name value = true) →
  Headers_fill g init !! k = None.
Proof.
  intros Hrefused. unfold Headers_fill.
  assert (Hfold : ∀ (h : Headers), h !! k = None →
    foldl (λ h kv, Headers_append g h kv.1 kv.2) h init !! k = None).
  { induction init as [|[name value] init IH]; intros h Hh; [done|].
    cbn [foldl fst snd]. apply IH. unfold Headers_append.
    destruct (refuses g name value) eqn:Href; [done|].
    assert (toLowerCase name ≠ k) by (intros Heq; by rewrite (Hrefused _ value Heq) in Href).
    destruct (h !! toLowerCase name); by rewrite lookup_insert_ne. }
  by apply Hfold.
Qed.

Lemma origin_is_forbidden name value :
  toLowerCase name = "origin" → refuses GuardRequest name value = true.
Proof. intros Hname. cbn. unfold forbiddenRequestHeader. by rewrite Hname. Qed.

Section RequestHeaders.
Context {platform : Platform}.

(** Copying a [Headers] object entry by entry gives an equal object. *)
Lemma copyHeaders_normal (original : Headers) :
  headersNormal original → copyHeaders original = original.
Proof.
  intros Hnormal. unfold copyHeaders, Headers_entries.
  assert (Hkeys : Forall (λ kv : string * string, toLowerCase kv.1 = kv.1)
                         (map_to_list original)).
  { apply Forall_forall. intros [k v] Hin%elem_of_map_to_list. by apply (Hnormal k v). }
  assert (Hfold : ∀ l (acc : Headers),
    Forall (λ kv : string * string, toLowerCase kv.1 = kv.1) l →
    foldl (λ requestHeaders kv, Headers_set requestHeaders kv.1 kv.2) acc l =
    foldl (λ h kv, <[kv.1 := kv.2]> h) acc l).
  { induction l as [|kv l IH]; intros acc Hall; [done|].
    apply Forall_cons in Hall as [Hkv Hall]. cbn [foldl].
    unfold Headers_set at 2. rewrite Hkv. by apply IH. }
  rewrite Hfold by done. apply map_eq. intros k.
  rewrite foldl_insert_lookup by apply NoDup_fst_map_to_list.
  rewrite list_to_map_to_list, lookup_empty. by destruct (original !! k).
Qed.

Lemma requestHeaders_other backendUrl request name :
  headersNormal (headers request) →
  toLowerCase name ≠ "origin" →
  Headers_get (requestHeadersFor backendUrl request) name =
  Headers_get (headers request) name.
Proof.
  intros Hnormal Hname. unfold requestHeadersFor, Headers_get.
  rewrite copyHeaders_normal by done.
  destruct (includes backendUrl "app.github.dev").
  - unfold Headers_delete. by rewrite lookup_delete_ne.
  - unfold Headers_set. by rewrite lookup_insert_ne.
Qed.

Lemma requestHeaders_origin backendUrl request :
  Headers_get (requestHeadersFor backendUrl request) "Origin" =
  if includes backendUrl "app.github.dev" then None else Some "https://wyerd.net".
Proof.
  unfold requestHeadersFor, Headers_get.
  destruct (includes backendUrl "app.github.dev").
  - unfold Headers_delete. by rewrite lookup_delete_eq.
  - unfold Headers_set. by rewrite lookup_insert_eq.
Qed.

(** The request of an attempt has no [Origin] header, whatever the header
    list it was built from. *)
Lemma backendRequest_origin backendUrl request :
  Headers_get (headers (backendRequestOf backendUrl request)) "Origin" = None.
Proof.
  unfold Headers_get, backendRequestOf. cbn [headers].
  change (toLowerCase "Origin") with "origin".
  pose proof (Headers_fill_refused GuardRequest
    (Headers_entries (requestHeadersFor backendUrl request)) "origin" origin_is_forbidden)
    as Hfill.
  unfold withContentType.
  destruct (backendBody request); [|done].
  destruct (_ !! "content-type"); [done|]. by rewrite lookup_insert_ne.
Qed.
End RequestHeaders.

(** ** Activation *)

Section Activation.
Context {platform : Platform}.

(** A cache is left when it was stored and no deletion removed it. *)
Lemma deleteEach_left names : ∀ stored name,
  name ∈ (deleteEach names stored).1 ↔
  name ∈ stored ∧ (name ∉ names ∨ is_Some (cacheDeleteError name)).
Proof.
  induction names as [|first names IH]; intros stored name.
  - cbn. split; [intros ?; split; [done|left; apply not_elem_of_nil]|by intros [? _]].
  - cbn [deleteEach]. unfold caches_delete.
    destruct (cacheDeleteError first) as [e|] eqn:Herr.
    + specialize (IH stored name). destruct (deleteEach names stored) as [stored2 rs].
      cbn [fst] in *. rewrite IH, not_elem_of_cons.
      destruct (decide (name = first)) as [->|Hne]; [rewrite Herr|]; intuition eauto.
    + specialize (IH (filter (λ n, n ≠ first) stored) name).
      destruct (deleteEach names _) as [stored2 rs].
      cbn [fst] in *. rewrite IH, list_elem_of_filter, not_elem_of_cons.
      destruct (decide (name = first)) as [->|Hne]; [rewrite Herr|].
      * split; [intuition|]. intros [_ [[]|[? [=]]]]; done.
      * intuition.
Qed.

(** [Promise.all] of the deletions is fulfilled when no deletion rejects. *)
Lemma deleteEach_all names : ∀ stored,
  failure (Promise_all (deleteEach names stored).2) = None ↔
  ∀ name, name ∈ names → cacheDeleteError name = None.
Proof.
  induction names as [|first names IH]; intros stored.
  - cbn. split; [|done]. by intros _ name ?%elem_of_nil.
  - cbn [deleteEach]. unfold caches_delete.
    destruct (cacheDeleteError first) as [e|] eqn:Herr.
    + destruct (deleteEach names stored) as [stored2 rs]. cbn.
      split; [done|]. intros Hnone. rewrite Hnone in Herr; [done|by left].
    + specialize (IH (filter (λ n, n ≠ first) stored)).
      destruct (deleteEach names _) as [stored2 rs]. cbn [snd Promise_all] in *.
      destruct (Promise_all rs) as [values|e] eqn:Hall; cbn [failure] in *.
      * split; [|done]. intros _ name [->|Hin]%elem_of_cons; [done|].
        by apply IH.
      * split; [done|]. intros Hnone. apply IH. intros name Hin. apply Hnone. by right.
Qed.
End Activation.

(** ** The claims about [handleApiRequest] *)

Section Forwarding.
Context {platform : Platform}.

(** C8: the request of every attempt.  The constructor builds it, and it is
    the request that the attempt passes to [fetch], with the abort signal
    of ten seconds.  Its URL is the backend's, followed by the path and the
    query of the original request; its method is the original one; its
    credentials are [include] and its mode [cors]; it carries the text of
    the original body when the method is neither [GET] nor [HEAD], and no
    body when it is one of them. *)
Theorem backend_request_shape (backendUrl : string) (request : Request)
    (log : list FetchCall) :
  ∃ backendRequest,
    backendRequestFor backendUrl request = Ok backendRequest ∧
    (attempt backendUrl request log).1
      = log ++ [mkFetchCall backendRequest (Some attemptInit)] ∧
    url backendRequest
      = backendUrl +:+ pathname (parseURL (url request))
                   +:+ search (parseURL (url request)) ∧
    method backendRequest = method request ∧
    credentials backendRequest = "include" ∧
    mode backendRequest = "cors" ∧
    (method request ≠ "GET" ∧ method request ≠ "HEAD" →
       body backendRequest = Some (Request_text request)) ∧
    (method request = "GET" ∨ method request = "HEAD" → body backendRequest = None).
Proof.
  exists (backendRequestOf backendUrl request).
  split; [apply backendRequestFor_builds|].
  split; [by rewrite attempt_runs|].
  repeat split.
  - intros [Hget Hhead]. cbn. unfold backendBody.
    apply String.eqb_neq in Hget, Hhead. by rewrite Hget, Hhead.
  - intros Hmethod. cbn. unfold backendBody.
    destruct Hmethod as [->%String.eqb_eq| ->%String.eqb_eq]; [done|].
    by rewrite andb_false_r.
Qed.

(** C7: the response that forwards a backend's answer.  When the attempts
    on the backends before the [n]-th fail and the attempt on the [n]-th
    gives the response [forwarded] for the answer [response] of that
    backend, [handleApiRequest] returns [forwarded] after one call of
    [fetch] for each backend up to the [n]-th; its status, status text and
    body are those of [response], and its headers are the five of
    [corsHeaderMap], whatever the headers of [response] are. *)
Theorem forwarded_response_mirrors_backend (candidates : list string)
    (request : Request) (n : nat) (backendUrl : string)
    (response forwarded : Response) :
  candidates !! n = Some backendUrl →
  Forall (λ fetched, is_Some (failure (attemptOutcome fetched)))
         (fetchedFrom 0 (take n candidates) request) →
  network n (fetchCallFor request backendUrl) = Ok response →
  attemptOutcome (Ok response) = Ok forwarded →
  handleApiRequestWith candidates request []
    = (fetchCallFor request <$> take (S n) candidates, Ok forwarded) ∧
  status forwarded = status response ∧
  statusText forwarded = statusText response ∧
  text forwarded = text response ∧
  responseHeaders forwarded = corsHeaderMap.
Proof.
  intros Hn Hfailed Hfetched Hforwarded. split.
  - apply (handleApiRequestWith_first candidates request n backendUrl); [done..|].
    by rewrite Hfetched.
  - cbn in Hforwarded. destruct (text response) as [responseBody|] eqn:Htext; [|done].
    apply forwardedResponse_ok in Hforwarded as ->. done.
Qed.

(** C3, amended: when the fetch for every candidate fails at the transport
    level, and [error] is the failure of the last one, [handleApiRequest]
    calls every candidate once, in order, and returns a response with
    status 503 and [Access-Control-Allow-Origin: *] whose body is a JSON
    object with the error label, a message, [backends] (the candidates, in
    order), [lastError], the solutions and the timestamp.  [lastError] is
    the message of [error] when that message is not empty, and
    [Unknown error] when it is. *)
Theorem all_failed_response (candidates : list string) (request : Request)
    (error : JsError) :
  Forall (λ fetched, is_Some (transportFailure fetched))
         (fetchedFrom 0 candidates request) →
  last (fetchedFrom 0 candidates request) ≫= transportFailure = Some error →
  ∃ response body payload,
    handleApiRequestWith candidates request []
      = (fetchCallFor request <$> candidates, Ok response) ∧
    status response = 503%Z ∧
    Headers_get (responseHeaders response) "Access-Control-Allow-Origin" = Some "*" ∧
    text response = Ok body ∧
    JSON_parse body = Some payload ∧
    member payload "error" = Some (JString "All Backends Failed") ∧
    (∃ explanation, member payload "message" = Some (JString explanation)) ∧
    member payload "backends" = Some (JArray (JString <$> candidates)) ∧
    member payload "lastError"
      = Some (JString (if String.eqb (message error) EmptyString
                       then "Unknown error" else message error)) ∧
    (∃ hints, member payload "solutions" = Some (JArray (JString <$> hints))) ∧
    member payload "timestamp" = Some (JString now).
Proof.
  intros Hfailed Hlast.
  assert (Hout : Forall (λ fetched, is_Some (failure (attemptOutcome fetched)))
                        (fetchedFrom 0 candidates request)).
  { eapply Forall_impl; [exact Hfailed|]. intros fetched [e He].
    exists e. by rewrite (transportFailure_outcome _ _ He). }
  assert (Herr : lastFailure None (attemptOutcome <$> fetchedFrom 0 candidates request)
                 = Some error).
  { apply lastFailure_last.
    - by apply Forall_fmap.
    - rewrite fmap_last. destruct (last (fetchedFrom 0 candidates request)) as [fetched|];
        [|done]. cbn in *. by rewrite (transportFailure_outcome _ _ Hlast). }
  unfold handleApiRequestWith. rewrite tryBackends_failed by done.
  cbn [length]. rewrite Herr, allBackendsFailed_builds. cbn [app].
  eexists _, _, _. split; [done|]. split; [done|]. split; [done|].
  split; [done|]. split; [apply JSON_parse_stringify|].
  split; [done|]. split; [by eexists|]. split; [done|]. split; [done|].
  split; [by eexists|done].
Qed.

(** C10: [lastError] in the 503.  With no candidate, [handleApiRequest] is
    the 503 for [lastError = null]; when every attempt fails, it is the 503
    for the error of the last attempt.  And whatever [lastError] holds, the
    503 is built, its body is a JSON object, and the [lastError] of that
    object is a string that is not empty: [Unknown error] when no failure
    was recorded or the recorded one has an empty message, the message
    otherwise. *)
Theorem last_error_is_never_empty (candidates : list string) (request : Request)
    (lastError : option JsError) (log : list FetchCall) :
  handleApiRequestWith [] request log = allBackendsFailed [] None log ∧
  (Forall (λ fetched, is_Some (failure (attemptOutcome fetched)))
          (fetchedFrom 0 candidates request) →
   handleApiRequestWith candidates request []
   = allBackendsFailed candidates
       (lastFailure None (attemptOutcome <$> fetchedFrom 0 candidates request))
       (fetchCallFor request <$> candidates)) ∧
  ∃ response body payload reported,
    allBackendsFailed candidates lastError log = (log, Ok response) ∧
    status response = 503%Z ∧
    text response = Ok body ∧
    JSON_parse body = Some payload ∧
    member payload "lastError" = Some (JString reported) ∧
    reported ≠ EmptyString ∧
    (lastError = None → reported = "Unknown error") ∧
    (∀ error, lastError = Some error →
       reported = if String.eqb (message error) EmptyString
                  then "Unknown error" else message error).
Proof.
  split; [done|]. split.
  { intros Hfailed. unfold handleApiRequestWith. by rewrite tryBackends_failed. }
  rewrite allBackendsFailed_builds.
  eexists _, _, _, (lastErrorMessage lastError).
  split; [done|]. split; [done|]. split; [done|].
  split; [apply JSON_parse_stringify|]. split; [done|].
  split; [|split].
  - unfold lastErrorMessage. destruct lastError as [error|]; [|done].
    destruct (String.eqb (message error) EmptyString) eqn:Hmsg; [done|].
    by apply String.eqb_neq.
  - by intros ->.
  - by intros error ->.
Qed.

(** C6: the [Origin] header of an attempt on a backend that is no Codespace.
    The worker sets [Origin] to the origin of the site on [requestHeaders],
    but the request that [new Request] builds from these headers has no
    [Origin] header: the constructor drops the forbidden request-headers,
    and [Origin] is one of them. *)
Theorem forced_origin_does_not_reach_the_request (backendUrl : string)
    (request : Request) :
  includes backendUrl "app.github.dev" = false →
  Headers_get (requestHeadersFor backendUrl request) "Origin" = Some "https://wyerd.net" ∧
  ∃ backendRequest,
    backendRequestFor backendUrl request = Ok backendRequest ∧
    Headers_get (headers backendRequest) "Origin" = None.
Proof.
  intros Hbackend. split.
  - by rewrite requestHeaders_origin, Hbackend.
  - exists (backendRequestOf backendUrl request).
    split; [apply backendRequestFor_builds|apply backendRequest_origin].
Qed.

(** The first answer that the constructor accepts ends the forwarding:
    when the attempts before the [n]-th fail, and the [n]-th backend answers
    with a [forwardable] response whose body is read, [handleApiRequest]
    returns that status, status text and body after one call for each
    backend up to the [n]-th. *)
Theorem first_forwardable_answer_wins (candidates : list string) (request : Request)
    (n : nat) (backendUrl : string) (response : Response) (responseBody : string) :
  candidates !! n = Some backendUrl →
  Forall (λ fetched, is_Some (failure (attemptOutcome fetched)))
         (fetchedFrom 0 (take n candidates) request) →
  network n (fetchCallFor request backendUrl) = Ok response →
  text response = Ok responseBody →
  forwardable response = true →
  handleApiRequestWith candidates request []
  = (fetchCallFor request <$> take (S n) candidates,
     Ok {| status := status response;
           statusText := statusText response;
           responseHeaders := corsHeaderMap;
           text := Ok responseBody |}).
Proof.
  intros Hn Hfailed Hfetched Htext Hforwardable.
  apply (handleApiRequestWith_first candidates request n backendUrl); [done..|].
  rewrite Hfetched. cbn. rewrite Htext. by apply forwardedResponse_forwardable.
Qed.

(** An error status of the preferred backend is final: when the first
    backend answers with a status from 400 to 599 and a status text that is
    a reason phrase (the constructor refuses any other status text, and the
    refusal counts as a failure, see [refused_answer_counts_as_failure]),
    and its body is read, no other backend is called and the response has
    that status and that body. *)
Theorem error_status_is_final (backendUrl : string) (fallbacks : list string)
    (request : Request) (response : Response) (responseBody : string) :
  network 0 (fetchCallFor request backendUrl) = Ok response →
  (400 ≤ status response ≤ 599)%Z →
  isReasonPhrase (statusText response) = true →
  text response = Ok responseBody →
  ∃ forwarded,
    handleApiRequestWith (backendUrl :: fallbacks) request []
      = ([fetchCallFor request backendUrl], Ok forwarded) ∧
    status forwarded = status response ∧
    text forwarded = Ok responseBody.
Proof.
  intros Hfetched Hstatus Hreason Htext. eexists. split.
  - apply (handleApiRequestWith_first (backendUrl :: fallbacks) request 0 backendUrl);
      [done|apply Forall_nil_2|].
    rewrite Hfetched. cbn. rewrite Htext.
    by apply forwardedResponse_forwardable, error_status_forwardable.
  - done.
Qed.

(** The headers that the worker prepares for an attempt: no [Origin] for a
    Codespace backend, the origin of the site for any other, and every
    other header as in the original request. *)
Theorem request_headers_are_adapted (backendUrl : string) (request : Request) :
  headersNormal (headers request) →
  Headers_get (requestHeadersFor backendUrl request) "Origin"
    = (if includes backendUrl "app.github.dev" then None else Some "https://wyerd.net") ∧
  ∀ name, toLowerCase name ≠ "origin" →
    Headers_get (requestHeadersFor backendUrl request) name
    = Headers_get (headers request) name.
Proof.
  intros Hnormal. split; [apply requestHeaders_origin|].
  intros name Hname. by apply requestHeaders_other.
Qed.

(** An answer that the constructor refuses counts as a failure of the
    backend: when the first backend answers with a response that is not
    [forwardable], the attempt throws, and the worker goes on with the
    other backends, holding the error of the constructor (or of the reading
    of the body) as [lastError]. *)
Theorem refused_answer_counts_as_failure (backendUrl : string) (fallbacks : list string)
    (request : Request) (response : Response) :
  network 0 (fetchCallFor request backendUrl) = Ok response →
  forwardable response = false →
  ∃ error,
    attempt backendUrl request [] = ([fetchCallFor request backendUrl], Throw error) ∧
    handleApiRequestWith (backendUrl :: fallbacks) request []
    = tryBackends (backendUrl :: fallbacks) fallbacks request (Some error)
        [fetchCallFor request backendUrl].
Proof.
  intros Hfetched Hrefused.
  assert (Hout : is_Some (failure (attemptOutcome (Ok response)))).
  { cbn. destruct (text response); [by apply forwardedResponse_refused|by eexists]. }
  destruct Hout as [error Herror].
  destruct (attemptOutcome (Ok response)) as [|e] eqn:Hout; [discriminate|].
  injection Herror as ->. exists error.
  assert (Hattempt : attempt backendUrl request []
                     = ([fetchCallFor request backendUrl], Throw error)).
  { rewrite attempt_runs. cbn [length app]. by rewrite Hfetched, Hout. }
  split; [done|].
  unfold handleApiRequestWith. cbn [tryBackends]. unfold tryCatch. by rewrite Hattempt.
Qed.

(** [handleApiRequest] never rejects: for every list of candidates, every
    request and every behaviour of the network it settles to a response. *)
Theorem handleApiRequest_always_settles (candidates : list string) (request : Request)
    (log : list FetchCall) :
  ∃ response, (handleApiRequestWith candidates request log).2 = Ok response.
Proof. unfold handleApiRequestWith. apply tryBackends_settles. Qed.
End Forwarding.

(** ** The claims about the [fetch] listener *)

Section Interception.
Context {platform : Platform}.

(** C4: which requests are forwarded.  The listener runs the forwarding
    routine, inside its [catch], exactly when the path of the request starts
    with [/api/]; for any other request it makes one call of [fetch] with
    the request as it is and no second argument, and answers with whatever
    that call settles to, whatever the forwarding routine is. *)
Theorem forwarding_iff_api_prefix (request : Request) (log : list FetchCall) :
  ((∀ handler, onFetchWith handler request log
               = (try handler request catch error ⇒ apiRequestFailed error) log)
   ↔ startsWith (pathname (parseURL (url request))) "/api/" = true)
  ∧ (startsWith (pathname (parseURL (url request))) "/api/" = false →
     ∀ handler,
       onFetchWith handler request log
       = (log ++ [mkFetchCall request None],
          network (length log) (mkFetchCall request None))).
Proof.
  unfold onFetchWith.
  destruct (startsWith (pathname (parseURL (url request))) "/api/") eqn:Hscope.
  - split; [done|discriminate].
  - split; [|done]. split; [|discriminate].
    intros Hrun. specialize (Hrun (λ _, reject (typeError EmptyString))).
    unfold tryCatch, reject, fetch in Hrun. rewrite apiRequestFailed_builds in Hrun.
    injection Hrun as Hlog _. apply (f_equal length) in Hlog.
    rewrite length_app in Hlog. cbn in Hlog. lia.
Qed.

(** C5: the boundary of the interception.  For a request in scope and any
    forwarding routine, the promise given to [respondWith] is fulfilled with
    a response: the response of the routine when it returns one, and, when
    the routine rejects with [fault], a response with status 500 and
    [Content-Type: application/json] whose body is a JSON object with the
    error label and the message of [fault]. *)
Theorem interception_always_answers (handler : Request → Async Response)
    (request : Request) (log : list FetchCall) :
  startsWith (pathname (parseURL (url request))) "/api/" = true →
  ∃ response,
    onFetchWith handler request log = ((handler request log).1, Ok response) ∧
    (∀ forwarded, (handler request log).2 = Ok forwarded → response = forwarded) ∧
    (∀ fault, (handler request log).2 = Throw fault →
       status response = 500%Z ∧
       Headers_get (responseHeaders response) "Content-Type" = Some "application/json" ∧
       ∃ body payload,
         text response = Ok body ∧
         JSON_parse body = Some payload ∧
         member payload "error" = Some (JString "API request failed") ∧
         member payload "message" = Some (JString (message fault))).
Proof.
  intros Hscope. unfold onFetchWith, tryCatch. rewrite Hscope.
  destruct (handler request log) as [log' [forwarded|fault]].
  - exists forwarded. cbn. split; [done|]. split; [congruence|discriminate].
  - rewrite apiRequestFailed_builds. eexists. split; [done|]. cbn [snd].
    split; [discriminate|]. intros ? [= <-]. cbn [status responseHeaders text].
    split; [done|]. split; [done|].
    eexists _, _. split; [done|]. split; [apply JSON_parse_stringify|]. done.
Qed.
End Interception.

(** ** The claim about activation *)

Section Activating.
Context {platform : Platform}.

(** C9, amended: after activation, the caches left are the stored ones that
    are the cache of the current version or whose own deletion failed: a
    failed deletion keeps no other cache.  [clients.claim()] is called when
    the deletion of every cache of another version succeeds, and only
    then. *)
Theorem activation_deletes_what_it_can (stored : list string) :
  (∀ name, name ∈ cachesLeft (onActivate stored) ↔
           name ∈ stored ∧ (name = CACHE_NAME ∨ is_Some (cacheDeleteError name))) ∧
  (claimed (onActivate stored) = true ↔
   ∀ name, name ∈ stored → name ≠ CACHE_NAME → cacheDeleteError name = None).
Proof.
  unfold onActivate.
  pose proof (deleteEach_left (filter (λ cacheName, cacheName ≠ CACHE_NAME) stored) stored)
    as Hleft.
  pose proof (deleteEach_all (filter (λ cacheName, cacheName ≠ CACHE_NAME) stored) stored)
    as Hall.
  destruct (deleteEach _ stored) as [stored' deletions]. cbn [fst snd] in *.
  assert (Hcaches : ∀ name, name ∈ stored' ↔
            name ∈ stored ∧ (name = CACHE_NAME ∨ is_Some (cacheDeleteError name))).
  { intros name. rewrite Hleft, list_elem_of_filter.
    destruct (decide (name = CACHE_NAME)); intuition. }
  assert (Hclaim : failure (Promise_all deletions) = None ↔
            ∀ name, name ∈ stored → name ≠ CACHE_NAME → cacheDeleteError name = None).
  { rewrite Hall. split.
    - intros Hnone name Hin Hne. apply Hnone. by apply list_elem_of_filter.
    - intros Hnone name [? ?]%list_elem_of_filter. by apply Hnone. }
  destruct (Promise_all deletions) as [values|e]; cbn [cachesLeft claimed failure] in *.
  - split; [done|]. split; [|done]. intros _. by apply Hclaim.
  - split; [done|]. split; [discriminate|]. intros Hnone. by apply Hclaim in Hnone.
Qed.
End Activating.

(** ** The worker on the platforms of the examples *)

(** C1, on a [DELETE] that the first backend answers with [204 No Content]:
    the attempt on the first backend receives an HTTP response, yet the
    worker goes on to the second backend and returns the answer of that
    one, so that the request is sent twice.  ([new Response] throws for a
    body together with the status 204, inside the [try] block.) *)
Theorem no_content_answer_is_retried :
  let run := handleApiRequest (platform := noContentFirst) deleteRequest [] in
  network (Platform := noContentFirst) 0
          (fetchCallFor (platform := noContentFirst) deleteRequest PRIMARY_BACKEND)
    = Ok (backendAnswer 204 "No Content" EmptyString) ∧
  run.1 = fetchCallFor (platform := noContentFirst) deleteRequest <$> take 2 backendUrls ∧
  ∃ forwarded,
    run.2 = Ok forwarded ∧ status forwarded = 200%Z ∧ text forwarded = Ok okBody.
Proof.
  split; [reflexivity|]. split; [reflexivity|].
  eexists. split; [reflexivity|]. split; reflexivity.
Qed.

(** C2, on a [DELETE] that every backend answers with [204 No Content]: no
    call of [fetch] fails at the transport level, yet the attempt on every
    backend fails, the worker goes from each backend to the next, calls all
    three, and answers with the 503 [All Backends Failed], whose
    [lastError] holds the message of the error that the constructor threw
    in the last attempt, in the wording of the engine. *)
Theorem answers_without_transport_failure_end_in_503 :
  let run := handleApiRequest (platform := noContentEverywhere) deleteRequest [] in
  let fetched := fetchedFrom (platform := noContentEverywhere) 0 backendUrls deleteRequest in
  Forall (λ fetched, transportFailure fetched = None) fetched ∧
  Forall (λ fetched, is_Some (failure (attemptOutcome fetched))) fetched ∧
  run.1 = fetchCallFor (platform := noContentEverywhere) deleteRequest <$> backendUrls ∧
  ∃ response body payload error,
    run.2 = Ok response ∧ status response = 503%Z ∧
    text response = Ok body ∧ JSON_parse body = Some payload ∧
    member payload "error" = Some (JString "All Backends Failed") ∧
    last fetched ≫= failure ∘ attemptOutcome = Some error ∧
    member payload "lastError" = Some (JString (lastErrorMessage (Some error))).
Proof.
  split; [repeat constructor|].
  split; [repeat (apply Forall_cons_2; [by eexists|]); apply Forall_nil_2|].
  split; [reflexivity|].
  eexists _, _, _, _. split; [reflexivity|]. split; [reflexivity|].
  split; [reflexivity|]. split; [apply JSON_parse_stringify|].
  split; [reflexivity|]. split; reflexivity.
Qed.

(** C3 as it is stated fails when the failures carry an empty message: it
    is not so that [lastError] in the body of the 503 is the message of the
    last failure, which is empty here, while the body says
    [Unknown error]. *)
Lemma silent_failure_is_reported_as_unknown :
  ¬ (∀ response body payload error,
       (handleApiRequest (platform := unreachableSilently) apiRequest []).2 = Ok response →
       text response = Ok body →
       JSON_parse body = Some payload →
       last (fetchedFrom (platform := unreachableSilently) 0 backendUrls apiRequest)
         ≫= transportFailure = Some error →
       member payload "lastError" = Some (JString (message error))).
Proof.
  intros Hclaim.
  specialize (Hclaim _ _ _ (typeError EmptyString) eq_refl eq_refl
                (JSON_parse_stringify _) eq_refl).
  discriminate Hclaim.
Qed.

(** [all_failed_response] when no backend is reached. *)
Lemma all_failed_response_unreachable :
  ∃ response body payload,
    handleApiRequestWith (platform := unreachable) backendUrls apiRequest []
      = (fetchCallFor (platform := unreachable) apiRequest <$> backendUrls, Ok response) ∧
    status response = 503%Z ∧
    Headers_get (responseHeaders response) "Access-Control-Allow-Origin" = Some "*" ∧
    text response = Ok body ∧
    JSON_parse body = Some payload ∧
    member payload "error" = Some (JString "All Backends Failed") ∧
    (∃ explanation, member payload "message" = Some (JString explanation)) ∧
    member payload "backends" = Some (JArray (JString <$> backendUrls)) ∧
    member payload "lastError" = Some (JString "Failed to fetch") ∧
    (∃ hints, member payload "solutions" = Some (JArray (JString <$> hints))) ∧
    member payload "timestamp" = Some (JString "2025-11-19T08:30:00.000Z").
Proof.
  apply (all_failed_response (platform := unreachable) backendUrls apiRequest failedToFetch).
  - repeat (apply Forall_cons_2; [by eexists|]). apply Forall_nil_2.
  - reflexivity.
Defined.

(** [interception_always_answers] for a routine that rejects at once. *)
Lemma interception_answers_a_fault :
  ∃ response,
    onFetchWith (platform := unreachable) faultyRoutine apiRequest []
      = ((faultyRoutine apiRequest []).1, Ok response) ∧
    (∀ forwarded, (faultyRoutine apiRequest []).2 = Ok forwarded → response = forwarded) ∧
    (∀ fault, (faultyRoutine apiRequest []).2 = Throw fault →
       status response = 500%Z ∧
       Headers_get (responseHeaders response) "Content-Type" = Some "application/json" ∧
       ∃ body payload,
         text response = Ok body ∧
         JSON_parse body = Some payload ∧
         member payload "error" = Some (JString "API request failed") ∧
         member payload "message" = Some (JString (message fault))).
Proof.
  apply (interception_always_answers (platform := unreachable) faultyRoutine apiRequest []).
  reflexivity.
Defined.

(** [forwarded_response_mirrors_backend] when the first backend is not
    reached and the second answers [200]. *)
Lemma second_backend_is_mirrored :
  let forwarded := {| status := 200; statusText := "OK";
                      responseHeaders := corsHeaderMap; text := Ok okBody |} in
  handleApiRequestWith (platform := secondAnswers) backendUrls apiRequest []
    = (fetchCallFor (platform := secondAnswers) apiRequest <$> take 2 backendUrls,
       Ok forwarded) ∧
  status forwarded = status (backendAnswer 200 "OK" okBody) ∧
  statusText forwarded = statusText (backendAnswer 200 "OK" okBody) ∧
  text forwarded = text (backendAnswer 200 "OK" okBody) ∧
  responseHeaders forwarded = corsHeaderMap.
Proof.
  apply (forwarded_response_mirrors_backend (platform := secondAnswers)
           backendUrls apiRequest 1
           "https://expert-fishstick-7vwj9x9vj6r93wqqp-5000.app.github.dev"
           (backendAnswer 200 "OK" okBody)).
  - reflexivity.
  - repeat (apply Forall_cons_2; [by eexists|]). apply Forall_nil_2.
  - reflexivity.
  - reflexivity.
Defined.

(** [forced_origin_does_not_reach_the_request] for the tunnel, the third
    backend. *)
Lemma forced_origin_is_dropped_for_the_tunnel :
  Headers_get
    (requestHeadersFor
       "https://facilitate-dim-insight-writes.trycloudflare.com" apiRequest) "Origin"
    = Some "https://wyerd.net" ∧
  ∃ backendRequest,
    backendRequestFor (platform := unreachable)
      "https://facilitate-dim-insight-writes.trycloudflare.com" apiRequest
      = Ok backendRequest ∧
    Headers_get (headers backendRequest) "Origin" = None.
Proof.
  apply (forced_origin_does_not_reach_the_request (platform := unreachable)
           "https://facilitate-dim-insight-writes.trycloudflare.com" apiRequest).
  reflexivity.
Defined.

(** [first_forwardable_answer_wins] when the first backend is not reached
    and the second answers [200]. *)
Lemma second_backend_wins :
  handleApiRequestWith (platform := secondAnswers) backendUrls apiRequest []
  = (fetchCallFor (platform := secondAnswers) apiRequest <$> take 2 backendUrls,
     Ok {| status := 200; statusText := "OK";
           responseHeaders := corsHeaderMap; text := Ok okBody |}).
Proof.
  apply (first_forwardable_answer_wins (platform := secondAnswers)
           backendUrls apiRequest 1
           "https://expert-fishstick-7vwj9x9vj6r93wqqp-5000.app.github.dev"
           (backendAnswer 200 "OK" okBody) okBody).
  - reflexivity.
  - repeat (apply Forall_cons_2; [by eexists|]). apply Forall_nil_2.
  - reflexivity.
  - reflexivity.
  - reflexivity.
Defined.

(** [error_status_is_final] when the first backend answers [500]. *)
Lemma internal_server_error_is_final :
  ∃ forwarded,
    handleApiRequestWith (platform := firstErrs) (PRIMARY_BACKEND :: FALLBACK_BACKENDS)
      apiRequest []
      = ([fetchCallFor (platform := firstErrs) apiRequest PRIMARY_BACKEND], Ok forwarded) ∧
    status forwarded = 500%Z ∧
    text forwarded = Ok "oops".
Proof.
  apply (error_status_is_final (platform := firstErrs) PRIMARY_BACKEND FALLBACK_BACKENDS
           apiRequest (backendAnswer 500 "Internal Server Error" "oops") "oops").
  - reflexivity.
  - cbn. lia.
  - reflexivity.
  - reflexivity.
Defined.

(** [refused_answer_counts_as_failure] when the first backend answers
    [204 No Content]. *)
Lemma no_content_counts_as_failure :
  ∃ error,
    attempt (platform := noContentFirst) PRIMARY_BACKEND deleteRequest []
    = ([fetchCallFor (platform := noContentFirst) deleteRequest PRIMARY_BACKEND],
       Throw error) ∧
    handleApiRequestWith (platform := noContentFirst)
      (PRIMARY_BACKEND :: FALLBACK_BACKENDS) deleteRequest []
    = tryBackends (platform := noContentFirst)
        (PRIMARY_BACKEND :: FALLBACK_BACKENDS) FALLBACK_BACKENDS deleteRequest (Some error)
        [fetchCallFor (platform := noContentFirst) deleteRequest PRIMARY_BACKEND].
Proof.
  apply (refused_answer_counts_as_failure (platform := noContentFirst)
           PRIMARY_BACKEND FALLBACK_BACKENDS deleteRequest
           (backendAnswer 204 "No Content" EmptyString)).
  - reflexivity.
  - reflexivity.
Defined.

(** [request_headers_are_adapted] for the first backend, a Codespace. *)
Lemma codespace_headers_are_adapted :
  Headers_get (requestHeadersFor PRIMARY_BACKEND apiRequest) "Origin" = None ∧
  ∀ name, toLowerCase name ≠ "origin" →
    Headers_get (requestHeadersFor PRIMARY_BACKEND apiRequest) name
    = Headers_get (headers apiRequest) name.
Proof.
  apply (request_headers_are_adapted PRIMARY_BACKEND apiRequest).
  intros k v. unfold apiRequest. cbn [headers].
  intros [[<- _]|[_ [<- _]%lookup_singleton_Some]]%lookup_insert_Some; reflexivity.
Defined.

(** C9 as it is stated fails when a deletion rejects: the cache of the
    previous version cannot be deleted; the other old cache is deleted, but
    [clients.claim()] is not called. *)
Lemma failed_deletion_blocks_claim :
  let activated :=
    onActivate (platform := stubbornCache)
      ["wyerd-crm-v1"; "wyerd-crm-v2"; "wyerd-static-v7"] in
  is_Some (cacheDeleteError (Platform := stubbornCache) "wyerd-crm-v1") ∧
  cachesLeft activated = ["wyerd-crm-v1"; "wyerd-crm-v2"] ∧
  claimed activated = false.
Proof. split; [by eexists|]. split; reflexivity. Qed.

(** The request for an asset goes to the network once, as it is, and the
    page gets what the network gives: here the rejection of [fetch]. *)
Example asset_request_is_passed_through :
  onFetch (platform := unreachable) assetRequest []
  = ([mkFetchCall assetRequest None], Throw failedToFetch).
Proof. reflexivity. Qed.

(** A [POST] is forwarded with the text of its body, to the URL of the
    backend followed by the path of the request. *)
Example post_request_is_forwarded_with_its_body :
  backendRequestFor (platform := unreachable) PRIMARY_BACKEND postRequest
  = Ok {| url := "https://expert-fishstick-7vwj9x9vj6r93wqqp-5173.app.github.dev/api/customers";
          method := "POST";
          headers := {[ "content-type" := "application/json" ]};
          body := Some okBody;
          credentials := "include";
          mode := "cors" |}.
Proof. reflexivity. Qed.

(** The body of the 503, as the page receives it. *)
Example all_failed_body_starts_with_the_label :
  ∃ response body,
    (handleApiRequest (platform := unreachable) apiRequest []).2 = Ok response ∧
    text response = Ok body ∧
    startsWith body (String "{" (dquote +:+ "error" +:+ dquote +:+ ":" +:+ dquote
                                  +:+ "All Backends Failed" +:+ dquote)) = true.
Proof. eexists _, _. split; [reflexivity|]. split; reflexivity. Qed.

(** * More of the worker *)

(** ** [startsWith] and [includes] *)

Lemma startsWith_iff s p : startsWith s p = true ↔ ∃ t, s = p +:+ t.
Proof.
  revert s. induction p as [|c p IH]; intros [|d s]; cbn [startsWith].
  - split; [|done]. intros _. by exists EmptyString.
  - split; [|done]. intros _. by exists (String d s).
  - split; [done|]. by intros [t [=]].
  - destruct (Ascii.eqb c d) eqn:Hcd.
    + apply Ascii.eqb_eq in Hcd as ->. rewrite IH. split.
      * intros [t ->]. by exists t.
      * intros [t [= ->]]. by exists t.
    + apply Ascii.eqb_neq in Hcd. split; [done|]. intros [t [= -> _]]. done.
Qed.

Lemma includes_iff s sub : includes s sub = true ↔ ∃ a b, s = a +:+ sub +:+ b.
Proof.
  induction s as [|c s IH]; cbn [includes].
  - rewrite orb_false_r, startsWith_iff. split.
    + intros [t ->]. by exists EmptyString, t.
    + intros ([|x a] & b & Heq); [by exists b|done].
  - rewrite orb_true_iff, IH, startsWith_iff. split.
    + intros [[t ->]|(a & b & ->)]; [by exists EmptyString, t|by exists (String c a), b].
    + intros ([|x a] & b & Heq).
      * left. by exists b.
      * right. injection Heq as -> ->. by exists a, b.
Qed.

Lemma lowerAscii_idem c : lowerAscii (lowerAscii c) = lowerAscii c.
Proof. destruct c as [[] [] [] [] [] [] [] []]; reflexivity. Qed.

Lemma toLowerCase_idem s : toLowerCase (toLowerCase s) = toLowerCase s.
Proof. induction s as [|c s IH]; [done|]. cbn. by rewrite lowerAscii_idem, IH. Qed.

(** ** Every run of [handleApiRequest] *)

Section Runs.
Context {platform : Platform}.

Lemma fetchedFrom_lookup rest : ∀ n0 request n,
  fetchedFrom n0 rest request !! n
  = (λ backendUrl, network (n0 + n) (fetchCallFor request backendUrl)) <$> rest !! n.
Proof.
  induction rest as [|b rest IH]; intros n0 request n; [done|].
  destruct n as [|n]; cbn [fetchedFrom].
  - cbn. by rewrite Nat.add_0_r.
  - cbn [lookup list_lookup]. rewrite IH. cbn. by rewrite Nat.add_succ_r.
Qed.

(** Either every attempt fails, or there is a first one that does not. *)
Lemma attempts_cases rest : ∀ n0 request,
  Forall (λ fetched, is_Some (failure (attemptOutcome fetched)))
         (fetchedFrom n0 rest request)
  ∨ ∃ n backendUrl forwarded,
      rest !! n = Some backendUrl ∧
      Forall (λ fetched, is_Some (failure (attemptOutcome fetched)))
             (fetchedFrom n0 (take n rest) request) ∧
      attemptOutcome (network (n0 + n) (fetchCallFor request backendUrl)) = Ok forwarded.
Proof.
  induction rest as [|b rest IH]; intros n0 request; [left; apply Forall_nil_2|].
  destruct (attemptOutcome (network n0 (fetchCallFor request b))) as [forwarded|e] eqn:Hout.
  - right. exists 0, b, forwarded. split; [done|]. split; [apply Forall_nil_2|].
    by rewrite Nat.add_0_r.
  - destruct (IH (S n0) request) as [Hall|(n & backendUrl & forwarded & Hn & Hall & Hok)].
    + left. cbn [fetchedFrom]. apply Forall_cons_2; [|done]. rewrite Hout. by eexists.
    + right. exists (S n), backendUrl, forwarded. split; [done|]. split.
      * cbn [take fetchedFrom]. apply Forall_cons_2; [|done]. rewrite Hout. by eexists.
      * by rewrite Nat.add_succ_r.
Qed.

(** An attempt that does not fail forwards what [fetch] gave. *)
Lemma attemptOutcome_ok fetched forwarded :
  attemptOutcome fetched = Ok forwarded →
  ∃ response responseBody,
    fetched = Ok response ∧ text response = Ok responseBody ∧
    forwarded = {| status := status response;
                   statusText := statusText response;
                   responseHeaders := corsHeaderMap;
                   text := Ok responseBody |}.
Proof.
  destruct fetched as [response|e]; [|done]. cbn.
  destruct (text response) as [responseBody|e] eqn:Htext; [|done].
  intros Hforwarded%forwardedResponse_ok. by eexists _, _.
Qed.

(** The whole of [handleApiRequest]: the 503 after a call to every
    candidate when every attempt fails, and otherwise the response of the
    first attempt that does not fail, after the calls up to that one. *)
Lemma handleApiRequestWith_cases candidates request :
  (Forall (λ fetched, is_Some (failure (attemptOutcome fetched)))
          (fetchedFrom 0 candidates request) ∧
   handleApiRequestWith candidates request []
   = allBackendsFailed candidates
       (lastFailure None (attemptOutcome <$> fetchedFrom 0 candidates request))
       (fetchCallFor request <$> candidates))
  ∨ ∃ n backendUrl forwarded,
      candidates !! n = Some backendUrl ∧
      attemptOutcome (network n (fetchCallFor request backendUrl)) = Ok forwarded ∧
      handleApiRequestWith candidates request []
      = (fetchCallFor request <$> take (S n) candidates, Ok forwarded).
Proof.
  destruct (attempts_cases candidates 0 request)
    as [Hall|(n & backendUrl & forwarded & Hn & Hall & Hok)].
  - left. split; [done|]. unfold handleApiRequestWith. by rewrite tryBackends_failed.
  - right. exists n, backendUrl, forwarded. split; [done|]. split; [done|].
    by apply (handleApiRequestWith_first candidates request n backendUrl).
Qed.

(** Whatever the network does, [handleApiRequest] calls the candidates in
    their order, each at most once, starting with the first: its calls are
    those for the first [k] candidates, for some [k] that is at most the
    number of candidates and at least one when there is a candidate. *)
Theorem calls_follow_the_candidates (candidates : list string) (request : Request) :
  ∃ k,
    k ≤ length candidates ∧
    (candidates ≠ [] → 1 ≤ k) ∧
    (handleApiRequestWith candidates request []).1
    = fetchCallFor request <$> take k candidates.
Proof.
  destruct (handleApiRequestWith_cases candidates request)
    as [[_ ->]|(n & backendUrl & forwarded & Hn & _ & ->)].
  - exists (length candidates). split; [done|]. split.
    + destruct candidates; [done|]. cbn. lia.
    + rewrite allBackendsFailed_builds, firstn_all. done.
  - exists (S n). apply lookup_lt_Some in Hn. split; [lia|]. split; [lia|done].
Qed.

(** Every call of [fetch] that [handleApiRequest] makes goes to one of the
    candidates, at the path and query of the request, with the method of
    the request and the same body each time, with credentials, and under
    the abort signal of ten seconds. *)
Theorem every_call_goes_to_a_candidate (candidates : list string) (request : Request)
    (call : FetchCall) :
  call ∈ (handleApiRequestWith candidates request []).1 →
  ∃ backendUrl,
    backendUrl ∈ candidates ∧
    url (callRequest call)
      = backendUrl +:+ pathname (parseURL (url request))
                   +:+ search (parseURL (url request)) ∧
    method (callRequest call) = method request ∧
    body (callRequest call) = backendBody request ∧
    credentials (callRequest call) = "include" ∧
    callInit call = Some attemptInit.
Proof.
  intros Hcall.
  assert (Hsome : ∃ k, call ∈ fetchCallFor request <$> take k candidates).
  { destruct (handleApiRequestWith_cases candidates request)
      as [[_ Hrun]|(n & b & forwarded & _ & _ & Hrun)]; rewrite Hrun in Hcall.
    - rewrite allBackendsFailed_builds in Hcall. exists (length candidates).
      by rewrite firstn_all.
    - by exists (S n). }
  destruct Hsome as [k Hin].
  apply list_elem_of_fmap in Hin as (backendUrl & -> & Hin).
  exists backendUrl. split; [|done].
  apply elem_of_take in Hin as (i & Hi & _). by eapply list_elem_of_lookup_2.
Qed.

(** The headers of the response of [handleApiRequest] tell what happened.
    The response always says [Content-Type: application/json].  When every
    attempt failed, it is the 503 with [Access-Control-Allow-Origin: *] and
    without [Access-Control-Allow-Credentials]; when an attempt did not
    fail, its headers are the five of [corsHeaderMap], with the origin of
    the site. *)
Theorem response_headers_tell_the_outcome (candidates : list string) (request : Request) :
  ∃ response,
    (handleApiRequestWith candidates request []).2 = Ok response ∧
    Headers_get (responseHeaders response) "Content-Type" = Some "application/json" ∧
    (Forall (λ fetched, is_Some (failure (attemptOutcome fetched)))
            (fetchedFrom 0 candidates request) →
     status response = 503%Z ∧
     Headers_get (responseHeaders response) "Access-Control-Allow-Origin" = Some "*" ∧
     Headers_get (responseHeaders response) "Access-Control-Allow-Credentials" = None) ∧
    (¬ Forall (λ fetched, is_Some (failure (attemptOutcome fetched)))
              (fetchedFrom 0 candidates request) →
     responseHeaders response = corsHeaderMap).
Proof.
  destruct (handleApiRequestWith_cases candidates request)
    as [[Hall ->]|(n & backendUrl & forwarded & Hn & Hok & ->)].
  - rewrite allBackendsFailed_builds. eexists. split; [done|]. split; [done|].
    split; [done|]. by intros [].
  - exists forwarded. split; [done|].
    apply attemptOutcome_ok in Hok as Hshape.
    destruct Hshape as (response & responseBody & Hfetched & Htext & ->).
    cbn [responseHeaders]. split; [done|]. split; [|done].
    intros Hall. rewrite Forall_lookup in Hall.
    specialize (Hall n (network n (fetchCallFor request backendUrl))).
    rewrite fetchedFrom_lookup, Hn in Hall. specialize (Hall eq_refl).
    rewrite Hok in Hall. by destruct Hall.
Qed.

(** Forwarding reads the path, the query, the method, the headers and the
    body of the request, and nothing else of it: two requests that agree on
    these are forwarded alike, whatever their hosts, credentials and
    modes. *)
Theorem forwarding_reads_five_parts (candidates : list string) (request request' : Request)
    (log : list FetchCall) :
  pathname (parseURL (url request)) = pathname (parseURL (url request')) →
  search (parseURL (url request)) = search (parseURL (url request')) →
  method request = method request' →
  headers request = headers request' →
  body request = body request' →
  handleApiRequestWith candidates request log
  = handleApiRequestWith candidates request' log.
Proof.
  intros Hpath Hsearch Hmethod Hheaders Hbody.
  assert (Hrequest : ∀ backendUrl,
            backendRequestFor backendUrl request = backendRequestFor backendUrl request').
  { intros backendUrl.
    unfold backendRequestFor, fullBackendUrl, requestHeadersFor, backendBody, Request_text.
    by rewrite Hpath, Hsearch, Hmethod, Hheaders, Hbody. }
  assert (Hattempt : ∀ backendUrl log',
            attempt backendUrl request log' = attempt backendUrl request' log').
  { intros backendUrl log'. unfold attempt, andThen, settled. by rewrite Hrequest. }
  unfold handleApiRequestWith. generalize (@None JsError). revert log.
  generalize candidates at 2 4.
  intros rest. induction rest as [|b rest IH]; intros log lastError; [done|].
  cbn [tryBackends]. unfold tryCatch. rewrite Hattempt.
  destruct (attempt b request' log) as [log' [forwarded|e]]; [done|]. apply IH.
Qed.

(** For a path that is [/api/] followed by anything, the listener answers
    with what [handleApiRequest] returns, and with nothing else: with this
    routine the [catch] of the listener never runs, and the 500 is never
    sent. *)
Theorem api_path_is_answered_by_the_routine (request : Request) (rest : string)
    (log : list FetchCall) :
  pathname (parseURL (url request)) = "/api/" +:+ rest →
  onFetch request log = handleApiRequest request log.
Proof.
  intros Hpath. unfold onFetch, onFetchWith, tryCatch.
  assert (startsWith (pathname (parseURL (url request))) "/api/" = true) as ->.
  { apply startsWith_iff. by exists rest. }
  unfold handleApiRequest, handleApiRequestWith.
  destruct (tryBackends_settles backendUrls backendUrls request None log) as [response Hok].
  destruct (tryBackends backendUrls backendUrls request None log) as [log' [r|e]]; [done|].
  discriminate.
Qed.

(** A backend counts as a Codespace, and gets no [Origin] on
    [requestHeaders], exactly when [app.github.dev] occurs somewhere in its
    URL, be it in the host, the path or the query. *)
Theorem codespace_is_a_substring_match (backendUrl : string) (request : Request) :
  Headers_get (requestHeadersFor backendUrl request) "Origin" = None
  ↔ ∃ before after, backendUrl = before +:+ "app.github.dev" +:+ after.
Proof.
  rewrite requestHeaders_origin, <- includes_iff.
  destruct (includes backendUrl "app.github.dev"); split; done.
Qed.
End Runs.

(** ** The headers that reach the backend *)

(** Filling from entries with distinct names in normal form: each entry is
    there unless the guard refuses it. *)
Lemma foldl_append_lookup g (l : list (string * string)) : ∀ (acc : Headers) k,
  NoDup l.*1 →
  Forall (λ kv : string * string, toLowerCase kv.1 = kv.1) l →
  (∀ k', k' ∈ l.*1 → acc !! k' = None) →
  foldl (λ h kv, Headers_append g h kv.1 kv.2) acc l !! k =
  match (list_to_map l : Headers) !! k with
  | Some v => if refuses g k v then acc !! k else Some v
  | None => acc !! k
  end.
Proof.
  induction l as [|[k0 v0] l IH]; intros acc k Hnodup Hnormal Hfresh; [done|].
  apply NoDup_cons in Hnodup as [Hk0 Hnodup].
  apply Forall_cons in Hnormal as [Hnormal0 Hnormal]. cbn in Hnormal0.
  cbn [foldl fst snd].
  change (list_to_map ((k0, v0) :: l) : Headers)
    with (<[k0 := v0]> (list_to_map l : Headers)).
  assert (Hacc0 : acc !! k0 = None) by (apply Hfresh; cbn; left).
  rewrite IH; [|done|done|].
  - unfold Headers_append. rewrite Hnormal0, Hacc0.
    destruct (decide (k = k0)) as [->|Hne].
    + rewrite (not_elem_of_list_to_map_1 _ _ Hk0), lookup_insert_eq.
      destruct (refuses g k0 v0); [done|]. by rewrite lookup_insert_eq.
    + rewrite lookup_insert_ne by done.
      destruct (refuses g k0 v0); [done|]. by rewrite lookup_insert_ne.
  - intros k' Hk'. unfold Headers_append. rewrite Hnormal0, Hacc0.
    assert (acc !! k' = None) by (apply Hfresh; cbn; by right).
    destruct (refuses g k0 v0); [done|].
    rewrite lookup_insert_ne; [done|]. intros ->. done.
Qed.

Lemma Headers_fill_entries g (h : Headers) k :
  headersNormal h →
  Headers_fill g (Headers_entries h) !! k =
  match h !! k with
  | Some v => if refuses g k v then None else Some v
  | None => None
  end.
Proof.
  intros Hnormal. unfold Headers_fill, Headers_entries.
  rewrite foldl_append_lookup.
  - by rewrite list_to_map_to_list, lookup_empty.
  - apply NoDup_fst_map_to_list.
  - apply Forall_forall. intros [k' v] Hin%elem_of_map_to_list. by apply (Hnormal k' v).
  - intros. apply lookup_empty.
Qed.

Lemma contentType_is_allowed value : refuses GuardRequest "content-type" value = false.
Proof. reflexivity. Qed.

Lemma requestHeaders_normal backendUrl request :
  headersNormal (headers request) → headersNormal (requestHeadersFor backendUrl request).
Proof.
  intros Hnormal k v. unfold requestHeadersFor. rewrite copyHeaders_normal by done.
  destruct (includes backendUrl "app.github.dev").
  - unfold Headers_delete. intros [_ Hk]%lookup_delete_Some. by apply (Hnormal k v).
  - unfold Headers_set. intros [[<- _]|[_ Hk]]%lookup_insert_Some; [done|].
    by apply (Hnormal k v).
Qed.

Section SentHeaders.
Context {platform : Platform}.

(** The headers of the request that an attempt sends.  A header of the
    original request other than [Origin] and [Content-Type] is sent with
    its value when scripts may set it, and is not sent when it is a
    forbidden request-header; no other header of these names is sent.
    [Content-Type] is the original one when there is one, the type of a
    text body when there is none and a body is sent, and absent
    otherwise. *)
Theorem sent_headers_are_the_allowed_ones (backendUrl : string) (request : Request) :
  headersNormal (headers request) →
  ∃ backendRequest,
    backendRequestFor backendUrl request = Ok backendRequest ∧
    (∀ name, toLowerCase name ≠ "origin" → toLowerCase name ≠ "content-type" →
       Headers_get (headers backendRequest) name
       = match Headers_get (headers request) name with
         | Some value => if forbiddenRequestHeader name value then None else Some value
         | None => None
         end) ∧
    Headers_get (headers backendRequest) "Content-Type"
    = match Headers_get (headers request) "Content-Type", backendBody request with
      | Some value, _ => Some value
      | None, Some _ => Some "text/plain;charset=UTF-8"
      | None, None => None
      end.
Proof.
  intros Hnormal. exists (backendRequestOf backendUrl request).
  split; [apply backendRequestFor_builds|].
  pose proof (requestHeaders_normal backendUrl request Hnormal) as Hnormal'.
  unfold backendRequestOf. cbn [headers]. split.
  - intros name Horigin Htype. unfold Headers_get.
    assert (Hfill : withContentType (backendBody request)
              (Headers_fill GuardRequest
                 (Headers_entries (requestHeadersFor backendUrl request)))
              !! toLowerCase name
            = Headers_fill GuardRequest
                (Headers_entries (requestHeadersFor backendUrl request))
                !! toLowerCase name).
    { unfold withContentType. destruct (backendBody request); [|done].
      destruct (_ !! "content-type"); [done|]. by rewrite lookup_insert_ne. }
    rewrite Hfill, Headers_fill_entries by done.
    pose proof (requestHeaders_other backendUrl request name Hnormal Horigin) as Hother.
    unfold Headers_get in Hother. rewrite Hother.
    destruct (headers request !! toLowerCase name) as [value|]; [|done].
    cbn [refuses]. unfold forbiddenRequestHeader. by rewrite toLowerCase_idem.
  - unfold Headers_get. change (toLowerCase "Content-Type") with "content-type".
    assert (Hfilled : Headers_fill GuardRequest
                (Headers_entries (requestHeadersFor backendUrl request)) !! "content-type"
              = headers request !! "content-type").
    { rewrite Headers_fill_entries by done.
      pose proof (requestHeaders_other backendUrl request "content-type" Hnormal) as Hother.
      unfold Headers_get in Hother.
      change (toLowerCase "content-type") with "content-type" in Hother.
      rewrite Hother by done.
      destruct (headers request !! "content-type"); [|done].
      by rewrite contentType_is_allowed. }
    unfold withContentType. rewrite Hfilled.
    destruct (backendBody request), (headers request !! "content-type") eqn:Htype;
      try done. by rewrite lookup_insert_eq.
Qed.
End SentHeaders.

(** ** A clean activation *)

Lemma filter_ext_in {A} (P Q : A → Prop) `{!∀ x, Decision (P x), !∀ x, Decision (Q x)}
    (l : list A) :
  (∀ x, x ∈ l → (P x ↔ Q x)) → filter P l = filter Q l.
Proof.
  induction l as [|a l IH]; intros Hiff; [done|].
  rewrite !filter_cons.
  assert (HPQ : P a ↔ Q a) by (apply Hiff; left).
  rewrite IH by (intros x Hx; apply Hiff; by right).
  destruct (decide (P a)), (decide (Q a)); tauto.
Qed.

Section CleanActivation.
Context {platform : Platform}.

(** The caches left by the deletions, in the order of the storage. *)
Lemma deleteEach_left_eq names : ∀ stored,
  (deleteEach names stored).1
  = filter (λ name, name ∉ names ∨ is_Some (cacheDeleteError name)) stored.
Proof.
  induction names as [|first names IH]; intros stored.
  - cbn [deleteEach fst]. induction stored as [|x stored IHs]; [done|].
    rewrite filter_cons_True by (left; apply not_elem_of_nil). by rewrite <- IHs.
  - cbn [deleteEach]. unfold caches_delete.
    destruct (cacheDeleteError first) as [e|] eqn:Herr.
    + specialize (IH stored). destruct (deleteEach names stored) as [stored2 rs].
      cbn [fst] in *. rewrite IH. apply list_filter_iff. intros name.
      rewrite not_elem_of_cons.
      destruct (decide (name = first)) as [->|Hne]; [rewrite Herr|]; intuition eauto.
    + specialize (IH (filter (λ n, n ≠ first) stored)).
      destruct (deleteEach names _) as [stored2 rs].
      cbn [fst] in *. rewrite IH, list_filter_filter. apply list_filter_iff. intros name.
      rewrite not_elem_of_cons.
      destruct (decide (name = first)) as [->|Hne]; [rewrite Herr|].
      * split; [intuition|]. intros [[]|[? [=]]]; done.
      * intuition.
Qed.

(** When no deletion of a cache of another version rejects, activation
    leaves the cache of the current version and nothing else, calls
    [clients.claim()], and fulfils the promise given to [waitUntil]. *)
Theorem clean_activation_leaves_the_current_cache (stored : list string) :
  (∀ name, name ∈ stored → name ≠ CACHE_NAME → cacheDeleteError name = None) →
  onActivate stored
  = {| cachesLeft := filter (λ name, name = CACHE_NAME) stored;
       claimed := true;
       waitUntil := Ok () |}.
Proof.
  intros Hclean. unfold onActivate.
  pose proof (deleteEach_left_eq (filter (λ cacheName, cacheName ≠ CACHE_NAME) stored) stored)
    as Hleft.
  pose proof (deleteEach_all (filter (λ cacheName, cacheName ≠ CACHE_NAME) stored) stored)
    as Hall.
  destruct (deleteEach _ stored) as [stored' deletions]. cbn [fst snd] in *.
  assert (Hcaches : stored' = filter (λ name, name = CACHE_NAME) stored).
  { rewrite Hleft. apply filter_ext_in. intros name Hin.
    rewrite list_elem_of_filter. split.
    - intros [Hnot|[e He]].
      + destruct (decide (name = CACHE_NAME)); [done|]. destruct Hnot. done.
      + destruct (decide (name = CACHE_NAME)) as [|Hne]; [done|].
        rewrite (Hclean name Hin Hne) in He. done.
    - intros ->. left. by intros [? _]. }
  assert (Hok : failure (Promise_all deletions) = None).
  { apply Hall. intros name [? ?]%list_elem_of_filter. by apply Hclean. }
  destruct (Promise_all deletions) as [values|e]; [|done]. by rewrite Hcaches.
Qed.
End CleanActivation.

(** ** These properties on the platforms of the examples *)

(** [every_call_goes_to_a_candidate] for the call to the second backend
    when no backend is reached. *)
Lemma second_call_goes_to_the_second_backend :
  ∃ backendUrl,
    backendUrl ∈ backendUrls ∧
    url (callRequest (fetchCallFor (platform := unreachable) apiRequest
                        "https://expert-fishstick-7vwj9x9vj6r93wqqp-5000.app.github.dev"))
      = backendUrl +:+ pathname (parseURL (Platform := unreachable) (url apiRequest))
                   +:+ search (parseURL (Platform := unreachable) (url apiRequest)) ∧
    method (callRequest (fetchCallFor (platform := unreachable) apiRequest
                           "https://expert-fishstick-7vwj9x9vj6r93wqqp-5000.app.github.dev"))
      = method apiRequest ∧
    body (callRequest (fetchCallFor (platform := unreachable) apiRequest
                         "https://expert-fishstick-7vwj9x9vj6r93wqqp-5000.app.github.dev"))
      = backendBody apiRequest ∧
    credentials (callRequest (fetchCallFor (platform := unreachable) apiRequest
                                "https://expert-fishstick-7vwj9x9vj6r93wqqp-5000.app.github.dev"))
      = "include" ∧
    callInit (fetchCallFor (platform := unreachable) apiRequest
                "https://expert-fishstick-7vwj9x9vj6r93wqqp-5000.app.github.dev")
      = Some attemptInit.
Proof.
  apply (every_call_goes_to_a_candidate (platform := unreachable) backendUrls apiRequest).
  change ((handleApiRequestWith (platform := unreachable) backendUrls apiRequest []).1)
    with (fetchCallFor (platform := unreachable) apiRequest <$> backendUrls).
  apply list_elem_of_fmap_2. right. left.
Defined.

(** [forwarding_reads_five_parts] for a request to the site and the same
    request to another host. *)
Lemma foreign_host_is_forwarded_alike :
  handleApiRequestWith (platform := secondAnswers) backendUrls apiRequest []
  = handleApiRequestWith (platform := secondAnswers) backendUrls foreignApiRequest [].
Proof.
  apply (forwarding_reads_five_parts (platform := secondAnswers)
           backendUrls apiRequest foreignApiRequest []); reflexivity.
Defined.

(** [api_path_is_answered_by_the_routine] for the path [/api/customers]. *)
Lemma customers_are_answered_by_the_routine :
  onFetch (platform := secondAnswers) apiRequest []
  = handleApiRequest (platform := secondAnswers) apiRequest [].
Proof.
  apply (api_path_is_answered_by_the_routine (platform := secondAnswers)
           apiRequest "customers" []).
  reflexivity.
Defined.

(** [sent_headers_are_the_allowed_ones] for a request with [Accept] and
    [Authorization]. *)
Lemma authorization_reaches_the_backend :
  ∃ backendRequest,
    backendRequestFor (platform := unreachable) PRIMARY_BACKEND apiRequest
      = Ok backendRequest ∧
    (∀ name, toLowerCase name ≠ "origin" → toLowerCase name ≠ "content-type" →
       Headers_get (headers backendRequest) name
       = match Headers_get (headers apiRequest) name with
         | Some value => if forbiddenRequestHeader name value then None else Some value
         | None => None
         end) ∧
    Headers_get (headers backendRequest) "Content-Type"
    = match Headers_get (headers apiRequest) "Content-Type", backendBody apiRequest with
      | Some value, _ => Some value
      | None, Some _ => Some "text/plain;charset=UTF-8"
      | None, None => None
      end.
Proof.
  apply (sent_headers_are_the_allowed_ones (platform := unreachable)
           PRIMARY_BACKEND apiRequest).
  intros k v. unfold apiRequest. cbn [headers].
  intros [[<- _]|[_ [<- _]%lookup_singleton_Some]]%lookup_insert_Some; reflexivity.
Defined.

(** [clean_activation_leaves_the_current_cache] for the caches of two old
    versions beside the current one. *)
Lemma old_caches_are_cleared :
  onActivate (platform := unreachable)
    ["wyerd-crm-v1"; "wyerd-crm-v2"; "wyerd-static-v7"]
  = {| cachesLeft :=
         filter (λ name, name = CACHE_NAME)
                ["wyerd-crm-v1"; "wyerd-crm-v2"; "wyerd-static-v7"];
       claimed := true;
       waitUntil := Ok () |}.
Proof.
  apply (clean_activation_leaves_the_current_cache (platform := unreachable)).
  intros name _ _. reflexivity.
Defined.

(** The header [Authorization] of a request of the page is sent to the
    backend as it is. *)
Example authorization_is_sent :
  ∃ backendRequest,
    backendRequestFor (platform := unreachable) PRIMARY_BACKEND apiRequest
      = Ok backendRequest ∧
    Headers_get (headers backendRequest) "Authorization" = Some "Bearer 8c1f".
Proof. eexists. split; reflexivity. Qed.
